(** * Nebula4X content validator (tools/validate_content.py)

    A shallow embedding of the validator over already-parsed JSON documents:
    the issue sink is threaded as state, Python exceptions are an error
    outcome, JSON objects keep their insertion order, and Python floats are
    IEEE-754 binary64 values of the Standard Library's [spec_float]. *)

From Stdlib Require Import ZArith Ascii String List Lia.
From Stdlib Require Import Floats.SpecFloat.
From stdpp Require Import base option list sets gmap strings pretty.

Local Open Scope Z_scope.
Local Set Warnings "-register-all,-clear-no-such-hyp".

(** ** Parsed JSON values, as [json.load] produces them *)

(** [int] is arbitrary precision, [float] is a binary64 (the literals [NaN]
    and [Infinity] are accepted by [json.load]), [dict] keeps insertion
    order and its keys are always [str]. *)
Inductive json : Type :=
  | JNull
  | JBool (b : bool)
  | JInt (z : Z)
  | JFloat (f : spec_float)
  | JStr (s : string)
  | JList (l : list json)
  | JDict (kvs : list (string * json)).

(** A Python [dict] with [str] keys: an association list in insertion
    order (keys are unique in a real dict). *)
Fixpoint dict_lookup {V : Type} (d : list (string * V)) (k : string) : option V :=
  match d with
  | [] => None
  | (k', v) :: d' => if String.eqb k' k then Some v else dict_lookup d' k
  end.

(** [k in d] *)
Definition dict_has {V : Type} (d : list (string * V)) (k : string) : bool :=
  match dict_lookup d k with Some _ => true | None => false end.

(** [d.get(k)]: [None] (JSON null) when the key is absent. *)
Definition dict_get (d : list (string * json)) (k : string) : json :=
  match dict_lookup d k with Some v => v | None => JNull end.

(** [d.get(k, dflt)] *)
Definition dict_get_default {V : Type} (d : list (string * V)) (k : string) (dflt : V) : V :=
  match dict_lookup d k with Some v => v | None => dflt end.

(** [d[k] = v]: replaces in place, or appends a new key at the end. *)
Fixpoint dict_set {V : Type} (d : list (string * V)) (k : string) (v : V) : list (string * V) :=
  match d with
  | [] => [(k, v)]
  | (k', v') :: d' =>
      if String.eqb k' k then (k', v) :: d' else (k', v') :: dict_set d' k v
  end.

(** [d.keys()] *)
Definition dict_keys {V : Type} (d : list (string * V)) : list string := map fst d.

(** [set(d.keys())] *)
Definition key_set {V : Type} (d : list (string * V)) : gset string :=
  list_to_set (dict_keys d).

(** [enumerate(l)] *)
Fixpoint enumerate_from {A : Type} (n : nat) (l : list A) : list (nat * A) :=
  match l with
  | [] => []
  | x :: l' => (n, x) :: enumerate_from (S n) l'
  end.

Definition enumerate {A : Type} (l : list A) : list (nat * A) := enumerate_from 0 l.

(** ** Python floats *)

Definition prec64 : Z := 53.
Definition emax64 : Z := 1024.

(** The literal [0.0]. *)
Definition float_zero : spec_float := S754_zero false.

(** The literal [0.001], that is 0x1.0624dd2f1a9fcp-10. *)
Definition float_milli : spec_float := S754_finite false 4611686018427388 (-62).

(** [a < b] on floats. *)
Definition float_lt (a b : spec_float) : bool := SFltb a b.

(** Exceptions the modelled code can raise. *)
Inductive exn : Type :=
  | OverflowError   (* float(v) for an int outside the binary64 range *)
  | TypeError       (* float(v) for a value that is not a number *)
  | ValueError      (* list.index(x) with x absent *)
  | IndexError      (* list.pop() on an empty list *)
  | KeyError        (* set.remove(x) with x absent *)
  | FuelExhausted.  (* not a Python exception: the recursion bound of the model *)

(** [float(z)] for an [int]: correctly rounded (to nearest, ties to even);
    raises [OverflowError] when the rounded value is not finite. *)
Definition float_of_int (z : Z) : exn + spec_float :=
  match binary_normalize prec64 emax64 z 0 false with
  | S754_infinity _ => inl OverflowError
  | f => inr f
  end.

(** ** Paths *)

(** A [pathlib.Path]: the anchor (["/"] when absolute, empty when relative)
    and the components. *)
Record Path : Type := mkPath { anchor : string; components : list string }.

(** [p / name] *)
Definition path_join (p : Path) (name : string) : Path :=
  mkPath (anchor p) (components p ++ [name]).

(** [str(p)] *)
Definition path_str (p : Path) : string :=
  match anchor p, components p with
  | EmptyString, [] => "."
  | a, cs => a +:+ String.concat "/" cs
  end.

Fixpoint strip_prefix (pre l : list string) : option (list string) :=
  match pre, l with
  | [], _ => Some l
  | x :: pre', y :: l' => if String.eqb x y then strip_prefix pre' l' else None
  | _ :: _, [] => None
  end.

(** [p.relative_to(root)]; [None] stands for the [ValueError]. *)
Definition relative_to (p root : Path) : option Path :=
  if String.eqb (anchor p) (anchor root) then
    match strip_prefix (components root) (components p) with
    | Some rest => Some (mkPath "" rest)
    | None => None
    end
  else None.

(** [p.parent] *)
Definition path_parent (p : Path) : Path :=
  mkPath (anchor p) (removelast (components p)).

(** What reading a content file gives: absent, not valid JSON (with the
    text of the parser's exception), or the parsed document. *)
Inductive file_state : Type :=
  | Missing
  | Unparsable (err : string)
  | Parsed (doc : json).

(** The file system the validator reads: the content files, and whether
    the path an [include] entry resolves to (relative to a directory)
    exists. *)
Record FileSystem : Type := mkFS {
  read_file : Path -> file_state;
  include_exists : Path -> string -> bool
}.

(** ** Issues and addressing *)

Record ValidationIssue : Type :=
  mkIssue { file : Path; pointer : string; message : string }.

(** [ValidationIssue.format] *)
Definition format (self : ValidationIssue) (root : Path) : string :=
  let rel := match relative_to (file self) root with
             | Some r => r
             | None => file self
             end in
  let loc := path_str rel in
  let loc := if String.eqb (pointer self) "" then loc
             else loc +:+ ":" +:+ pointer self in
  loc +:+ ": " +:+ message self.

(** A path segment of a structural address: [str | int]. *)
Inductive seg : Type :=
  | SKey (s : string)
  | SIdx (n : nat).

(** [s.replace(c, rep)] for a one-character pattern. *)
Fixpoint replace_char (c : Ascii.ascii) (rep : string) (s : string) : string :=
  match s with
  | EmptyString => EmptyString
  | String a s' =>
      if Ascii.eqb a c then rep +:+ replace_char c rep s'
      else String a (replace_char c rep s')
  end.

Definition esc (p : string) : string :=
  replace_char "/"%char "~1" (replace_char "~"%char "~0" p).

(** What the loop of [_json_pointer] appends for one part: [str(p)] for an
    [int], [esc(p)] otherwise. *)
Definition seg_text (p : seg) : string :=
  match p with
  | SIdx n => pretty n
  | SKey s => esc s
  end.

Definition _json_pointer (parts : list seg) : string :=
  let out := map seg_text parts in
  match out with
  | [] => ""
  | _ => "/" +:+ String.concat "/" out
  end.

Definition _is_number (x : json) : bool :=
  match x with
  | JInt _ | JFloat _ => true
  | _ => false
  end.

(** ** The validator monad: the issue sink as state, exceptions as outcome *)

Inductive outcome (S A : Type) : Type :=
  | Returned (a : A) (s : S)
  | Raised (e : exn).
Arguments Returned {S A} a s.
Arguments Raised {S A} e.

Definition M (A : Type) : Type :=
  list ValidationIssue -> outcome (list ValidationIssue) A.

Definition ret {A : Type} (a : A) : M A := fun s => Returned a s.

Definition bind {A B : Type} (m : M A) (k : A -> M B) : M B :=
  fun s => match m s with
           | Returned a s' => k a s'
           | Raised e => Raised e
           end.

Definition raise {A : Type} (e : exn) : M A := fun _ => Raised e.

(** [issues.append(i)] *)
Definition append_issue (i : ValidationIssue) : M unit :=
  fun s => Returned tt (s ++ [i]).

Declare Scope validator_scope.
Delimit Scope validator_scope with V.
Notation "x <- m ;; k" := (bind m (fun x => k))
  (at level 20, m at level 99, k at level 200, only parsing) : validator_scope.
Notation "m ;; k" := (bind m (fun _ => k))
  (at level 100, k at level 200, right associativity, only parsing) : validator_scope.
Local Open Scope validator_scope.

(** [for x in l: body(x)] *)
Fixpoint for_each {A : Type} (body : A -> M unit) (l : list A) : M unit :=
  match l with
  | [] => ret tt
  | x :: l' => body x ;; for_each body l'
  end.

(** A loop that updates local variables [b]. *)
Fixpoint fold_each {A B : Type} (body : B -> A -> M B) (b : B) (l : list A) : M B :=
  match l with
  | [] => ret b
  | x :: l' => b' <- body b x ;; fold_each body b' l'
  end.

(** [float(v)] *)
Definition py_float (v : json) : M spec_float :=
  match v with
  | JInt z => match float_of_int z with
              | inl e => raise e
              | inr f => ret f
              end
  | JFloat f => ret f
  | _ => raise TypeError
  end.

Section Validator.

(** [repr] of a float, as an f-string renders [min_value]. *)
Variable float_repr : spec_float -> string.

(** Whether [datetime.date.fromisoformat] accepts the string. *)
Variable date_fromisoformat_ok : string -> bool.

Set Default Proof Using "Type".

(** ** Primitive checkers *)

Definition _require_dict (file : Path) (parts : list seg) (v : json) (what : string)
  : M (option (list (string * json))) :=
  match v with
  | JDict d =>
      (* the keys of a parsed JSON object are strings: the key loop finds nothing *)
      ret (Some d)
  | _ =>
      append_issue (mkIssue file (_json_pointer parts) (what +:+ " must be an object")) ;;
      ret None
  end.

Definition _require_list (file : Path) (parts : list seg) (v : json) (what : string)
  : M (option (list json)) :=
  match v with
  | JList l => ret (Some l)
  | _ =>
      append_issue (mkIssue file (_json_pointer parts) (what +:+ " must be an array")) ;;
      ret None
  end.

Definition _require_str (file : Path) (parts : list seg) (v : json) (what : string)
  : M (option string) :=
  match v with
  | JStr (String a s) => ret (Some (String a s))
  | _ =>
      append_issue (mkIssue file (_json_pointer parts) (what +:+ " must be a non-empty string")) ;;
      ret None
  end.

Definition _require_int (file : Path) (parts : list seg) (v : json) (what : string)
    (min_value : option Z) : M (option Z) :=
  match v with
  | JInt z =>
      match min_value with
      | Some m =>
          if z <? m then
            append_issue (mkIssue file (_json_pointer parts)
                            (what +:+ " must be >= " +:+ pretty m)) ;;
            ret None
          else ret (Some z)
      | None => ret (Some z)
      end
  | _ =>
      append_issue (mkIssue file (_json_pointer parts) (what +:+ " must be an integer")) ;;
      ret None
  end.

Definition _require_number (file : Path) (parts : list seg) (v : json) (what : string)
    (min_value : option spec_float) : M (option spec_float) :=
  if negb (_is_number v) then
    append_issue (mkIssue file (_json_pointer parts) (what +:+ " must be a number")) ;;
    ret None
  else
    vv <- py_float v ;;
    match min_value with
    | Some m =>
        if float_lt vv m then
          append_issue (mkIssue file (_json_pointer parts)
                          (what +:+ " must be >= " +:+ float_repr m)) ;;
          ret None
        else ret (Some vv)
    | None => ret (Some vv)
    end.

Definition _require_bool (file : Path) (parts : list seg) (v : json) (what : string)
  : M (option bool) :=
  match v with
  | JBool b => ret (Some b)
  | _ =>
      append_issue (mkIssue file (_json_pointer parts) (what +:+ " must be true/false")) ;;
      ret None
  end.

(** ** Resource catalog loader *)

Definition resources_path (root : Path) : Path :=
  path_join (path_join (path_join root "data") "blueprints") "resources.json".

(** Body of the loop over [resources.items()]. *)
Definition validate_resource_entry (path : Path) (entry : string * json) : M unit :=
  let '(rid, robj) := entry in
  let rparts := [SKey "resources"; SKey rid] in
  if String.eqb rid "" then
    append_issue (mkIssue path (_json_pointer rparts) "resource id must be a non-empty string")
  else
    robj_d <- _require_dict path rparts robj ("resource '" +:+ rid +:+ "'") ;;
    match robj_d with
    | None => ret tt
    | Some robj_d =>
        _require_str path (rparts ++ [SKey "name"]) (dict_get robj_d "name") "name" ;;
        _require_str path (rparts ++ [SKey "category"]) (dict_get robj_d "category") "category" ;;
        _require_bool path (rparts ++ [SKey "mineable"]) (dict_get robj_d "mineable") "mineable" ;;
        _require_number path (rparts ++ [SKey "salvage_research_rp_per_ton"])
          (dict_get robj_d "salvage_research_rp_per_ton")
          "salvage_research_rp_per_ton" (Some float_zero) ;;
        ret tt
    end.

Definition validate_resources (fs : FileSystem) (root : Path)
  : M (option (list (string * json))) :=
  let path := resources_path root in
  match read_file fs path with
  | Missing => append_issue (mkIssue path "" "file not found") ;; ret None
  | Unparsable e =>
      append_issue (mkIssue path "" ("failed to parse JSON: " +:+ e)) ;; ret None
  | Parsed data =>
      top <- _require_dict path [] data "root" ;;
      match top with
      | None => ret None
      | Some top =>
          _require_int path [SKey "version"] (dict_get top "version") "version" (Some 1) ;;
          resources <- _require_dict path [SKey "resources"] (dict_get top "resources") "resources" ;;
          match resources with
          | None => ret None
          | Some resources =>
              for_each (validate_resource_entry path) resources ;;
              ret (Some resources)
          end
      end
  end.

Definition _ALLOWED_COMPONENT_TYPES : gset string :=
  list_to_set ["armor"; "cargo"; "colony_module"; "engine"; "fuel_tank"; "mining";
               "reactor"; "sensor"; "shield"; "troop_bay"; "weapon"].

Definition _ALLOWED_SHIP_ROLES : gset string :=
  list_to_set ["freighter"; "surveyor"; "combatant"; "unknown"].

(** Body of the loop over [m.items()] in [_validate_resource_map]. *)
Definition validate_resource_map_entry (file : Path) (parts : list seg) (what : string)
    (resource_ids : gset string) (entry : string * json) : M unit :=
  let '(k, amt) := entry in
  if String.eqb k "" then
    append_issue (mkIssue file (_json_pointer parts)
                    (what +:+ " resource keys must be non-empty strings"))
  else
    (if bool_decide (k ∈ resource_ids) then ret tt
     else append_issue (mkIssue file (_json_pointer (parts ++ [SKey k]))
                          ("unknown resource '" +:+ k +:+ "'"))) ;;
    _require_number file (parts ++ [SKey k]) amt (what +:+ "['" +:+ k +:+ "']")
      (Some float_zero) ;;
    ret tt.

Definition _validate_resource_map (file : Path) (parts : list seg) (v : json)
    (what : string) (resource_ids : gset string) : M unit :=
  m <- _require_dict file parts v what ;;
  match m with
  | None => ret tt
  | Some m => for_each (validate_resource_map_entry file parts what resource_ids) m
  end.

(** ** Blueprint loader *)

Definition blueprints_path (root : Path) : Path :=
  path_join (path_join (path_join root "data") "blueprints") "starting_blueprints.json".

(** [ctype == s], where [ctype] is a [str] or [None]. *)
Definition ctype_is (ctype : option string) (s : string) : bool :=
  match ctype with
  | Some c => String.eqb c s
  | None => false
  end.

(** Body of the loop over [enumerate(inc_list)]. *)
Definition validate_include_entry (fs : FileSystem) (path : Path) (ie : nat * json) : M unit :=
  let '(i, entry) := ie in
  s <- _require_str path [SKey "include"; SIdx i] entry "include entry" ;;
  match s with
  | None => ret tt
  | Some s =>
      if include_exists fs (path_parent path) s then ret tt
      else append_issue (mkIssue path (_json_pointer [SKey "include"; SIdx i])
                           ("included file not found: " +:+ s))
  end.

(** The [if ctype == ... elif ...] chain: minimal per-type required fields. *)
Definition component_type_checks (path : Path) (cparts : list seg)
    (cdict : list (string * json)) (ctype : option string) : M unit :=
  if ctype_is ctype "engine" then
    _require_number path (cparts ++ [SKey "speed_km_s"]) (dict_get cdict "speed_km_s")
      "speed_km_s" (Some float_milli) ;;
    _require_number path (cparts ++ [SKey "fuel_use_per_mkm"]) (dict_get cdict "fuel_use_per_mkm")
      "fuel_use_per_mkm" (Some float_zero) ;;
    ret tt
  else if ctype_is ctype "cargo" then
    _require_number path (cparts ++ [SKey "cargo_tons"]) (dict_get cdict "cargo_tons")
      "cargo_tons" (Some float_milli) ;;
    ret tt
  else if ctype_is ctype "mining" then
    _require_number path (cparts ++ [SKey "mining_tons_per_day"])
      (dict_get cdict "mining_tons_per_day") "mining_tons_per_day" (Some float_milli) ;;
    ret tt
  else if ctype_is ctype "fuel_tank" then
    _require_number path (cparts ++ [SKey "fuel_capacity_tons"])
      (dict_get cdict "fuel_capacity_tons") "fuel_capacity_tons" (Some float_milli) ;;
    ret tt
  else if ctype_is ctype "colony_module" then
    _require_number path (cparts ++ [SKey "colony_capacity_millions"])
      (dict_get cdict "colony_capacity_millions") "colony_capacity_millions" (Some float_milli) ;;
    ret tt
  else if ctype_is ctype "troop_bay" then
    _require_int path (cparts ++ [SKey "troop_capacity"]) (dict_get cdict "troop_capacity")
      "troop_capacity" (Some 1) ;;
    ret tt
  else if ctype_is ctype "sensor" then
    (if dict_has cdict "range_mkm" then
       _require_number path (cparts ++ [SKey "range_mkm"]) (dict_get cdict "range_mkm")
         "range_mkm" (Some float_milli) ;; ret tt
     else ret tt) ;;
    (if dict_has cdict "ecm_strength" then
       _require_number path (cparts ++ [SKey "ecm_strength"]) (dict_get cdict "ecm_strength")
         "ecm_strength" (Some float_zero) ;; ret tt
     else ret tt) ;;
    (if dict_has cdict "eccm_strength" then
       _require_number path (cparts ++ [SKey "eccm_strength"]) (dict_get cdict "eccm_strength")
         "eccm_strength" (Some float_zero) ;; ret tt
     else ret tt)
  else if ctype_is ctype "reactor" then
    _require_number path (cparts ++ [SKey "power"]) (dict_get cdict "power")
      "power" (Some float_milli) ;;
    ret tt
  else if ctype_is ctype "weapon" then
    let has_beam := dict_has cdict "damage" || dict_has cdict "weapon_range_mkm" in
    let has_missile := dict_has cdict "missile_damage" || dict_has cdict "missile_range_mkm" in
    let has_pd :=
      dict_has cdict "point_defense_damage" || dict_has cdict "point_defense_range_mkm" in
    (if negb (has_beam || has_missile || has_pd) then
       append_issue (mkIssue path (_json_pointer cparts)
                       "weapon must define beam/missile/point-defense fields")
     else ret tt) ;;
    (if has_beam then
       _require_number path (cparts ++ [SKey "damage"]) (dict_get cdict "damage")
         "damage" (Some float_zero) ;;
       _require_number path (cparts ++ [SKey "weapon_range_mkm"])
         (dict_get cdict "weapon_range_mkm") "weapon_range_mkm" (Some float_zero) ;;
       ret tt
     else ret tt) ;;
    (if has_missile then
       _require_number path (cparts ++ [SKey "missile_damage"])
         (dict_get cdict "missile_damage") "missile_damage" (Some float_zero) ;;
       _require_number path (cparts ++ [SKey "missile_range_mkm"])
         (dict_get cdict "missile_range_mkm") "missile_range_mkm" (Some float_zero) ;;
       _require_number path (cparts ++ [SKey "missile_speed_mkm_per_day"])
         (dict_get cdict "missile_speed_mkm_per_day") "missile_speed_mkm_per_day"
         (Some float_zero) ;;
       _require_int path (cparts ++ [SKey "missile_reload_days"])
         (dict_get cdict "missile_reload_days") "missile_reload_days" (Some 0) ;;
       _require_int path (cparts ++ [SKey "missile_ammo"])
         (dict_get cdict "missile_ammo") "missile_ammo" (Some 0) ;;
       ret tt
     else ret tt) ;;
    (if has_pd then
       _require_number path (cparts ++ [SKey "point_defense_damage"])
         (dict_get cdict "point_defense_damage") "point_defense_damage" (Some float_zero) ;;
       _require_number path (cparts ++ [SKey "point_defense_range_mkm"])
         (dict_get cdict "point_defense_range_mkm") "point_defense_range_mkm"
         (Some float_zero) ;;
       ret tt
     else ret tt)
  else if ctype_is ctype "armor" then
    (if dict_has cdict "hp_bonus" then
       _require_number path (cparts ++ [SKey "hp_bonus"]) (dict_get cdict "hp_bonus")
         "hp_bonus" (Some float_zero) ;; ret tt
     else ret tt) ;;
    (if dict_has cdict "signature_multiplier" then
       _require_number path (cparts ++ [SKey "signature_multiplier"])
         (dict_get cdict "signature_multiplier") "signature_multiplier" (Some float_zero) ;;
       ret tt
     else ret tt)
  else if ctype_is ctype "shield" then
    _require_number path (cparts ++ [SKey "shield_hp"]) (dict_get cdict "shield_hp")
      "shield_hp" (Some float_milli) ;;
    _require_number path (cparts ++ [SKey "shield_regen_per_day"])
      (dict_get cdict "shield_regen_per_day") "shield_regen_per_day" (Some float_zero) ;;
    ret tt
  else ret tt.

(** Body of the loop over [comps.items()]; [components] is the map being
    built. *)
Definition validate_component (path : Path) (components : list (string * list (string * json)))
    (entry : string * json) : M (list (string * list (string * json))) :=
  let '(cid, cobj) := entry in
  let cparts := [SKey "components"; SKey cid] in
  if String.eqb cid "" then
    append_issue (mkIssue path (_json_pointer cparts) "component id must be a non-empty string") ;;
    ret components
  else
    cdict <- _require_dict path cparts cobj ("component '" +:+ cid +:+ "'") ;;
    match cdict with
    | None => ret components
    | Some cdict =>
        name <- _require_str path (cparts ++ [SKey "name"]) (dict_get cdict "name") "name" ;;
        ctype <- _require_str path (cparts ++ [SKey "type"]) (dict_get cdict "type") "type" ;;
        match ctype with
        | Some c =>
            if bool_decide (c ∈ _ALLOWED_COMPONENT_TYPES) then ret tt
            else append_issue (mkIssue path (_json_pointer (cparts ++ [SKey "type"]))
                                 ("unknown component type '" +:+ c +:+ "'"))
        | None => ret tt
        end ;;
        match dict_get cdict "mass_tons" with
        | JNull => ret tt
        | mass =>
            _require_number path (cparts ++ [SKey "mass_tons"]) mass "mass_tons"
              (Some float_zero) ;; ret tt
        end ;;
        component_type_checks path cparts cdict ctype ;;
        match name with
        | Some _ => ret (dict_set components cid cdict)
        | None => ret components
        end
    end.

(** Body of the loop over a design's [enumerate(comp_list)]. *)
Definition validate_design_component (path : Path) (dparts : list seg)
    (components : list (string * list (string * json))) (jc : nat * json) : M unit :=
  let '(j, comp) := jc in
  cid2 <- _require_str path (dparts ++ [SKey "components"; SIdx j]) comp "component id" ;;
  match cid2 with
  | None => ret tt
  | Some cid2 =>
      if dict_has components cid2 then ret tt
      else append_issue (mkIssue path (_json_pointer (dparts ++ [SKey "components"; SIdx j]))
                           ("unknown component '" +:+ cid2 +:+ "'"))
  end.

(** Body of the loop over [enumerate(designs)]; [design_ids] is the running
    set of ids seen. *)
Definition validate_design (path : Path) (components : list (string * list (string * json)))
    (design_ids : gset string) (idx : nat * json) : M (gset string) :=
  let '(i, dobj) := idx in
  let dparts := [SKey "designs"; SIdx i] in
  d <- _require_dict path dparts dobj "design" ;;
  match d with
  | None => ret design_ids
  | Some d =>
      did <- _require_str path (dparts ++ [SKey "id"]) (dict_get d "id") "id" ;;
      design_ids <-
        match did with
        | Some did =>
            (if bool_decide (did ∈ design_ids) then
               append_issue (mkIssue path (_json_pointer (dparts ++ [SKey "id"]))
                               ("duplicate design id '" +:+ did +:+ "'"))
             else ret tt) ;;
            ret (design_ids ∪ {[ did ]})
        | None => ret design_ids
        end ;;
      _require_str path (dparts ++ [SKey "name"]) (dict_get d "name") "name" ;;
      role <- _require_str path (dparts ++ [SKey "role"]) (dict_get d "role") "role" ;;
      match role with
      | Some r =>
          if bool_decide (r ∈ _ALLOWED_SHIP_ROLES) then ret tt
          else append_issue (mkIssue path (_json_pointer (dparts ++ [SKey "role"]))
                               ("unknown ship role '" +:+ r +:+ "'"))
      | None => ret tt
      end ;;
      comp_list <- _require_list path (dparts ++ [SKey "components"])
                     (dict_get d "components") "components" ;;
      match comp_list with
      | Some comp_list =>
          for_each (validate_design_component path dparts components) (enumerate comp_list)
      | None => ret tt
      end ;;
      ret design_ids
  end.

(** Body of the loop over [insts.items()]; [installations] is the map being
    built. *)
Definition validate_installation (path : Path) (resource_ids : gset string)
    (installations : list (string * list (string * json))) (entry : string * json)
  : M (list (string * list (string * json))) :=
  let '(iid, iobj) := entry in
  let iparts := [SKey "installations"; SKey iid] in
  if String.eqb iid "" then
    append_issue (mkIssue path (_json_pointer iparts)
                    "installation id must be a non-empty string") ;;
    ret installations
  else
    inst <- _require_dict path iparts iobj ("installation '" +:+ iid +:+ "'") ;;
    match inst with
    | None => ret installations
    | Some inst =>
        _require_str path (iparts ++ [SKey "name"]) (dict_get inst "name") "name" ;;
        (if dict_has inst "construction_cost" then
           _require_number path (iparts ++ [SKey "construction_cost"])
             (dict_get inst "construction_cost") "construction_cost" (Some float_zero) ;;
           ret tt
         else ret tt) ;;
        (if dict_has inst "build_costs" then
           _validate_resource_map path (iparts ++ [SKey "build_costs"])
             (dict_get inst "build_costs") "build_costs" resource_ids
         else ret tt) ;;
        (if dict_has inst "build_costs_per_ton" then
           _validate_resource_map path (iparts ++ [SKey "build_costs_per_ton"])
             (dict_get inst "build_costs_per_ton") "build_costs_per_ton" resource_ids
         else ret tt) ;;
        (if dict_has inst "produces" then
           _validate_resource_map path (iparts ++ [SKey "produces"])
             (dict_get inst "produces") "produces" resource_ids
         else ret tt) ;;
        (if dict_has inst "consumes" then
           _validate_resource_map path (iparts ++ [SKey "consumes"])
             (dict_get inst "consumes") "consumes" resource_ids
         else ret tt) ;;
        ret (dict_set installations iid inst)
    end.

Definition validate_blueprints (fs : FileSystem) (root : Path) (resource_ids : gset string)
  : M (option (list (string * list (string * json)))
       * option (list (string * list (string * json)))) :=
  let path := blueprints_path root in
  match read_file fs path with
  | Missing => append_issue (mkIssue path "" "file not found") ;; ret (None, None)
  | Unparsable e =>
      append_issue (mkIssue path "" ("failed to parse JSON: " +:+ e)) ;; ret (None, None)
  | Parsed data =>
      top <- _require_dict path [] data "root" ;;
      match top with
      | None => ret (None, None)
      | Some top =>
          _require_int path [SKey "version"] (dict_get top "version") "version" (Some 1) ;;
          match dict_get top "include" with
          | JNull => ret tt
          | inc =>
              inc_list <- _require_list path [SKey "include"] inc "include" ;;
              match inc_list with
              | Some inc_list =>
                  for_each (validate_include_entry fs path) (enumerate inc_list)
              | None => ret tt
              end
          end ;;
          comps <- _require_dict path [SKey "components"] (dict_get top "components")
                     "components" ;;
          match comps with
          | None => ret (None, None)
          | Some comps =>
              components <- fold_each (validate_component path) [] comps ;;
              designs <- _require_list path [SKey "designs"] (dict_get top "designs")
                           "designs" ;;
              match designs with
              | Some designs =>
                  fold_each (validate_design path components) ∅ (enumerate designs) ;;
                  ret tt
              | None => ret tt
              end ;;
              insts <- _require_dict path [SKey "installations"]
                         (dict_get top "installations") "installations" ;;
              match insts with
              | None => ret (Some components, None)
              | Some insts =>
                  installations <- fold_each (validate_installation path resource_ids) [] insts ;;
                  ret (Some components, Some installations)
              end
          end
      end
  end.

(** ** Tech tree loader *)

Definition tech_tree_path (root : Path) : Path :=
  path_join (path_join (path_join root "data") "tech") "tech_tree.json".

Definition _ALLOWED_FACTION_OUTPUT_BONUS_KEYS : gset string :=
  list_to_set ["all"; "construction"; "industry"; "mining"; "research"; "shipyard";
               "terraforming"; "troop_training"].

Definition effect_types : gset string :=
  list_to_set ["unlock_component"; "unlock_installation"; "faction_output_bonus"].

Definition unlock_effect_types : gset string :=
  list_to_set ["unlock_component"; "unlock_installation"].

(** Body of the loop over [enumerate(prereqs)] of the schema pass. *)
Definition validate_prereq_entry (path : Path) (tparts : list seg) (jp : nat * json) : M unit :=
  let '(j, pre) := jp in
  _require_str path (tparts ++ [SKey "prereqs"; SIdx j]) pre "prereq" ;; ret tt.

(** Body of the loop over [enumerate(effects)]. *)
Definition validate_effect (path : Path) (tparts : list seg)
    (component_ids installation_ids : gset string) (je : nat * json) : M unit :=
  let '(j, eobj) := je in
  let eparts := tparts ++ [SKey "effects"; SIdx j] in
  e <- _require_dict path eparts eobj "effect" ;;
  match e with
  | None => ret tt
  | Some e =>
      etype <- _require_str path (eparts ++ [SKey "type"]) (dict_get e "type") "type" ;;
      match etype with
      | None => ret tt
      | Some etype =>
          if negb (bool_decide (etype ∈ effect_types)) then
            append_issue (mkIssue path (_json_pointer (eparts ++ [SKey "type"]))
                            ("unknown effect type '" +:+ etype +:+ "'"))
          else if bool_decide (etype ∈ unlock_effect_types) then
            val <- _require_str path (eparts ++ [SKey "value"]) (dict_get e "value") "value" ;;
            match val with
            | None => ret tt
            | Some val =>
                (if String.eqb etype "unlock_component"
                    && negb (bool_decide (val ∈ component_ids)) then
                   append_issue (mkIssue path (_json_pointer (eparts ++ [SKey "value"]))
                                   ("unknown component '" +:+ val +:+ "'"))
                 else ret tt) ;;
                (if String.eqb etype "unlock_installation"
                    && negb (bool_decide (val ∈ installation_ids)) then
                   append_issue (mkIssue path (_json_pointer (eparts ++ [SKey "value"]))
                                   ("unknown installation '" +:+ val +:+ "'"))
                 else ret tt)
            end
          else if String.eqb etype "faction_output_bonus" then
            key <- _require_str path (eparts ++ [SKey "value"]) (dict_get e "value") "value" ;;
            match key with
            | Some key =>
                if bool_decide (key ∈ _ALLOWED_FACTION_OUTPUT_BONUS_KEYS) then ret tt
                else append_issue (mkIssue path (_json_pointer (eparts ++ [SKey "value"]))
                                     ("unknown output bonus key '" +:+ key +:+ "'"))
            | None => ret tt
            end ;;
            _require_number path (eparts ++ [SKey "amount"]) (dict_get e "amount") "amount"
              (Some float_zero) ;;
            ret tt
          else ret tt
      end
  end.

(** The two maps the schema pass builds. *)
Record tech_maps : Type := mkTechMaps {
  tech_by_id : list (string * list (string * json));
  tech_index_by_id : list (string * nat)
}.

(** Body of the loop over [enumerate(techs)]. *)
Definition validate_tech (path : Path) (component_ids installation_ids : gset string)
    (maps : tech_maps) (it : nat * json) : M tech_maps :=
  let '(i, tobj) := it in
  let tparts := [SKey "techs"; SIdx i] in
  t <- _require_dict path tparts tobj "tech" ;;
  match t with
  | None => ret maps
  | Some t =>
      tid <- _require_str path (tparts ++ [SKey "id"]) (dict_get t "id") "id" ;;
      match tid with
      | None => ret maps
      | Some tid =>
          if dict_has (tech_by_id maps) tid then
            append_issue (mkIssue path (_json_pointer (tparts ++ [SKey "id"]))
                            ("duplicate tech id '" +:+ tid +:+ "'")) ;;
            ret maps
          else
            let maps := mkTechMaps (dict_set (tech_by_id maps) tid t)
                                   (dict_set (tech_index_by_id maps) tid i) in
            _require_str path (tparts ++ [SKey "name"]) (dict_get t "name") "name" ;;
            _require_int path (tparts ++ [SKey "cost"]) (dict_get t "cost") "cost" (Some 0) ;;
            prereqs <- _require_list path (tparts ++ [SKey "prereqs"])
                         (dict_get t "prereqs") "prereqs" ;;
            match prereqs with
            | Some prereqs => for_each (validate_prereq_entry path tparts) (enumerate prereqs)
            | None => ret tt
            end ;;
            effects <- _require_list path (tparts ++ [SKey "effects"])
                         (dict_get t "effects") "effects" ;;
            match effects with
            | Some effects =>
                for_each (validate_effect path tparts component_ids installation_ids)
                  (enumerate effects)
            | None => ret tt
            end ;;
            ret maps
      end
  end.

(** Body of the loop over [enumerate(prereqs)] of the reference pass. *)
Definition check_prereq_exists (path : Path) (maps : tech_maps) (tid : string)
    (jp : nat * json) : M unit :=
  let '(j, pre) := jp in
  match pre with
  | JStr pre =>
      if dict_has (tech_by_id maps) pre then ret tt
      else
        let idx := dict_lookup (tech_index_by_id maps) tid in
        let ptr := _json_pointer [SKey "techs";
                                  match idx with Some i => SIdx i | None => SKey tid end;
                                  SKey "prereqs"; SIdx j] in
        append_issue (mkIssue path ptr ("unknown prereq tech '" +:+ pre +:+ "'"))
  | _ => ret tt
  end.

(** Body of the loop over [tech_by_id.items()] of the reference pass. *)
Definition check_tech_prereqs (path : Path) (maps : tech_maps)
    (entry : string * list (string * json)) : M unit :=
  let '(tid, t) := entry in
  match dict_get t "prereqs" with
  | JList prereqs => for_each (check_prereq_exists path maps tid) (enumerate prereqs)
  | _ => ret tt
  end.

(** *** Cycle detection *)

(** The variables the closure [dfs] shares: the two marker sets, the
    stack list (one list object per root, mutated in place) and the sink. *)
Record dfs_state : Type := mkDfs {
  visiting : gset string;
  visited : gset string;
  stack : list string;
  sink : list ValidationIssue
}.

(** [l.index(x)] *)
Fixpoint list_index (x : string) (l : list string) : option nat :=
  match l with
  | [] => None
  | y :: l' => if String.eqb y x then Some 0%nat
               else match list_index x l' with
                    | Some i => Some (S i)
                    | None => None
                    end
  end.

Definition cycle_message (cycle : list string) : string :=
  "tech prereq cycle detected: " +:+ String.concat " -> " cycle.

(** [for pre in prereqs2: if isinstance(pre, str) and pre in tech_by_id:
    dfs(pre, stack)], with [visit] the recursive call. *)
Fixpoint dfs_each {S : Type} (visit : string -> S -> outcome S unit)
    (tmap : list (string * list (string * json))) (prereqs2 : list json) (st : S)
  : outcome S unit :=
  match prereqs2 with
  | [] => Returned tt st
  | JStr pre :: rest =>
      if dict_has tmap pre then
        match visit pre st with
        | Returned _ st' => dfs_each visit tmap rest st'
        | Raised e => Raised e
        end
      else dfs_each visit tmap rest st
  | _ :: rest => dfs_each visit tmap rest st
  end.

(** [dfs(tid2, stack)]; [fuel] bounds the recursion depth. *)
Fixpoint dfs (fuel : nat) (path : Path) (tmap : list (string * list (string * json)))
    (tid2 : string) (st : dfs_state) : outcome dfs_state unit :=
  match fuel with
  | O => Raised FuelExhausted
  | S fuel' =>
      if bool_decide (tid2 ∈ visited st) then Returned tt st
      else if bool_decide (tid2 ∈ visiting st) then
        match list_index tid2 (stack st) with
        | None => Raised ValueError
        | Some i =>
            let cycle := drop i (stack st) ++ [tid2] in
            Returned tt (mkDfs (visiting st) (visited st) (stack st)
                           (sink st ++ [mkIssue path "" (cycle_message cycle)]))
        end
      else
        let st1 := mkDfs (visiting st ∪ {[ tid2 ]}) (visited st) (stack st ++ [tid2]) (sink st) in
        let prereqs2 := dict_get_default (dict_get_default tmap tid2 []) "prereqs" (JList []) in
        match (match prereqs2 with
               | JList l => dfs_each (dfs fuel' path tmap) tmap l st1
               | _ => Returned tt st1
               end) with
        | Raised e => Raised e
        | Returned _ st2 =>
            match stack st2 with
            | [] => Raised IndexError
            | _ :: _ =>
                if bool_decide (tid2 ∈ visiting st2) then
                  Returned tt (mkDfs (visiting st2 ∖ {[ tid2 ]}) (visited st2 ∪ {[ tid2 ]})
                                 (removelast (stack st2)) (sink st2))
                else Raised KeyError
            end
        end
  end.

(** [for tid2 in tech_by_id.keys(): if tid2 not in visited: dfs(tid2, [])] *)
Fixpoint dfs_roots (fuel : nat) (path : Path) (tmap : list (string * list (string * json)))
    (keys : list string) (st : dfs_state) : outcome dfs_state unit :=
  match keys with
  | [] => Returned tt st
  | tid2 :: rest =>
      if bool_decide (tid2 ∈ visited st) then dfs_roots fuel path tmap rest st
      else
        match dfs fuel path tmap tid2 (mkDfs (visiting st) (visited st) [] (sink st)) with
        | Returned _ st' => dfs_roots fuel path tmap rest st'
        | Raised e => Raised e
        end
  end.

(** The cycle-detection pass.  The recursion of [dfs] never gets deeper
    than the number of techs plus one, which is the bound given here. *)
Definition detect_cycles (path : Path) (tmap : list (string * list (string * json))) : M unit :=
  fun issues =>
    match dfs_roots (S (length tmap)) path tmap (dict_keys tmap) (mkDfs ∅ ∅ [] issues) with
    | Returned _ st => Returned tt (sink st)
    | Raised e => Raised e
    end.

Definition validate_tech_tree (fs : FileSystem) (root : Path)
    (component_ids installation_ids : gset string) : M unit :=
  let path := tech_tree_path root in
  match read_file fs path with
  | Missing => append_issue (mkIssue path "" "file not found")
  | Unparsable e => append_issue (mkIssue path "" ("failed to parse JSON: " +:+ e))
  | Parsed data =>
      top <- _require_dict path [] data "root" ;;
      match top with
      | None => ret tt
      | Some top =>
          _require_int path [SKey "version"] (dict_get top "version") "version" (Some 1) ;;
          techs <- _require_list path [SKey "techs"] (dict_get top "techs") "techs" ;;
          match techs with
          | None => ret tt
          | Some techs =>
              maps <- fold_each (validate_tech path component_ids installation_ids)
                        (mkTechMaps [] []) (enumerate techs) ;;
              for_each (check_tech_prereqs path maps) (tech_by_id maps) ;;
              detect_cycles path (tech_by_id maps)
          end
      end
  end.

(** ** Settings loader *)

Definition settings_path (root : Path) : Path :=
  path_join (path_join root "data") "settings.json".

Definition validate_settings (fs : FileSystem) (root : Path) : M unit :=
  let path := settings_path root in
  match read_file fs path with
  | Missing => append_issue (mkIssue path "" "file not found")
  | Unparsable e => append_issue (mkIssue path "" ("failed to parse JSON: " +:+ e))
  | Parsed data =>
      top <- _require_dict path [] data "root" ;;
      match top with
      | None => ret tt
      | Some top =>
          (if dict_has top "startingScenario" then
             _require_str path [SKey "startingScenario"] (dict_get top "startingScenario")
               "startingScenario" ;; ret tt
           else ret tt) ;;
          match dict_get top "sim" with
          | JNull => ret tt
          | sim =>
              sim_d <- _require_dict path [SKey "sim"] sim "sim" ;;
              match sim_d with
              | None => ret tt
              | Some sim_d =>
                  (if dict_has sim_d "startDate" then
                     s <- _require_str path [SKey "sim"; SKey "startDate"]
                            (dict_get sim_d "startDate") "startDate" ;;
                     match s with
                     | Some s =>
                         if date_fromisoformat_ok s then ret tt
                         else append_issue (mkIssue path
                                (_json_pointer [SKey "sim"; SKey "startDate"])
                                "startDate must be YYYY-MM-DD")
                     | None => ret tt
                     end
                   else ret tt) ;;
                  (if dict_has sim_d "secondsPerDay" then
                     _require_int path [SKey "sim"; SKey "secondsPerDay"]
                       (dict_get sim_d "secondsPerDay") "secondsPerDay" (Some 1) ;;
                     ret tt
                   else ret tt)
              end
          end
      end
  end.

(** ** Orchestrator *)

(** [set(d.keys()) if d else set()] *)
Definition ids_of {V : Type} (d : option (list (string * V))) : gset string :=
  match d with
  | Some (e :: l) => key_set (e :: l)
  | _ => ∅
  end.

(** The body of [validate_all], run on the sink. *)
Definition run_loaders (fs : FileSystem) (root : Path) : M unit :=
  resources <- validate_resources fs root ;;
  let resource_ids := ids_of resources in
  ci <- validate_blueprints fs root resource_ids ;;
  let component_ids := ids_of (fst ci) in
  let installation_ids := ids_of (snd ci) in
  validate_tech_tree fs root component_ids installation_ids ;;
  validate_settings fs root.

(** [validate_all(root)]: the issues, or the exception that escapes. *)
Definition validate_all (fs : FileSystem) (root : Path) : exn + list ValidationIssue :=
  match run_loaders fs root [] with
  | Returned _ issues => inr issues
  | Raised e => inl e
  end.

(** ** Vocabulary of the properties *)

(** The float value of a JSON number, when [float(v)] has one. *)
Definition json_float (v : json) : option spec_float :=
  match v with
  | JInt z => match float_of_int z with
              | inl _ => None
              | inr f => Some f
              end
  | JFloat f => Some f
  | _ => None
  end.

(** [v] is an [int] too large for [float(v)]. *)
Definition overflows (v : json) : bool :=
  match v with
  | JInt z => match float_of_int z with
              | inl _ => true
              | inr _ => false
              end
  | _ => false
  end.

(** A number that is not below the bound [m] (the bound is inclusive). *)
Definition number_at_least (v : json) (m : spec_float) : Prop :=
  exists f, json_float v = Some f /\ float_lt f m = false.

(** A number below the bound [m]. *)
Definition number_below (v : json) (m : spec_float) : Prop :=
  exists f, json_float v = Some f /\ float_lt f m = true.

(** An integer that is at least [m]. *)
Definition int_at_least (v : json) (m : Z) : Prop :=
  exists z, v = JInt z /\ m <= z.

(** A checker call that behaves as the checkers are meant to: it returns
    the value and leaves the sink alone, or returns [None] after appending
    exactly one issue. *)
Definition checks_cleanly {A : Type} (m : M (option A)) (s : list ValidationIssue) : Prop :=
  (exists a, m s = Returned (Some a) s) \/ (exists i, m s = Returned None (s ++ [i])).

(** Every issue a computation appends satisfies [P]; the sink it was given
    is kept as a prefix. *)
Definition all_issues {A : Type} (P : ValidationIssue -> Prop) (m : M A) : Prop :=
  forall s, match m s with
            | Returned _ s' => exists l, s' = s ++ l /\ Forall P l
            | Raised _ => True
            end.


(** The issues a call of [_require_number] with bound [m] appends, and the
    value it returns, when [float(v)] does not overflow. *)
Definition number_issues (file : Path) (parts : list seg) (v : json) (what : string)
    (m : spec_float) : list ValidationIssue :=
  if negb (_is_number v) then
    [mkIssue file (_json_pointer parts) (what +:+ " must be a number")]
  else
    match json_float v with
    | Some x =>
        if float_lt x m then
          [mkIssue file (_json_pointer parts) (what +:+ " must be >= " +:+ float_repr m)]
        else []
    | None => []
    end.

Definition number_result (v : json) (m : spec_float) : option spec_float :=
  match json_float v with
  | Some x => if float_lt x m then None else Some x
  | None => None
  end.

(** The same for [_require_int] with bound [m]. *)
Definition int_issues (file : Path) (parts : list seg) (v : json) (what : string) (m : Z)
  : list ValidationIssue :=
  match v with
  | JInt z =>
      if z <? m then [mkIssue file (_json_pointer parts) (what +:+ " must be >= " +:+ pretty m)]
      else []
  | _ => [mkIssue file (_json_pointer parts) (what +:+ " must be an integer")]
  end.

Definition int_result (v : json) (m : Z) : option Z :=
  match v with
  | JInt z => if z <? m then None else Some z
  | _ => None
  end.

(** [repr] on the two float literals the validator passes as [min_value]. *)
Definition float_repr_literals (f : spec_float) : string :=
  match f with
  | S754_zero false => "0.0"
  | S754_finite false 4611686018427388 (-62) => "0.001"
  | _ => "?"
  end.

(** *** Weapon field groups *)

Inductive field_kind : Type :=
  | NumberField   (* a number >= 0.0 *)
  | IntField.     (* an integer >= 0 *)

Definition beam_fields : list (string * field_kind) :=
  [("damage", NumberField); ("weapon_range_mkm", NumberField)].

Definition missile_fields : list (string * field_kind) :=
  [("missile_damage", NumberField); ("missile_range_mkm", NumberField);
   ("missile_speed_mkm_per_day", NumberField); ("missile_reload_days", IntField);
   ("missile_ammo", IntField)].

Definition pd_fields : list (string * field_kind) :=
  [("point_defense_damage", NumberField); ("point_defense_range_mkm", NumberField)].

(** The presence tests of the weapon branch. *)
Definition has_beam (cdict : list (string * json)) : bool :=
  dict_has cdict "damage" || dict_has cdict "weapon_range_mkm".
Definition has_missile (cdict : list (string * json)) : bool :=
  dict_has cdict "missile_damage" || dict_has cdict "missile_range_mkm".
Definition has_pd (cdict : list (string * json)) : bool :=
  dict_has cdict "point_defense_damage" || dict_has cdict "point_defense_range_mkm".

(** The fields of the groups that are present. *)
Definition weapon_fields_checked (cdict : list (string * json)) : list (string * field_kind) :=
  (if has_beam cdict then beam_fields else [])
  ++ (if has_missile cdict then missile_fields else [])
  ++ (if has_pd cdict then pd_fields else []).

(** A field value that passes its check. *)
Definition field_valid (kind : field_kind) (v : json) : Prop :=
  match kind with
  | NumberField => number_at_least v float_zero
  | IntField => int_at_least v 0
  end.

(** The field's value is an integer that [float] cannot convert. *)
Definition field_overflows (cdict : list (string * json)) (fk : string * field_kind) : bool :=
  match snd fk with
  | NumberField => overflows (dict_get cdict (fst fk))
  | IntField => false
  end.

(** The issue reported for one field of a component, if any. *)
Definition field_issues (path : Path) (cparts : list seg) (cdict : list (string * json))
    (fk : string * field_kind) : list ValidationIssue :=
  match snd fk with
  | NumberField =>
      number_issues path (cparts ++ [SKey (fst fk)]) (dict_get cdict (fst fk)) (fst fk) float_zero
  | IntField =>
      int_issues path (cparts ++ [SKey (fst fk)]) (dict_get cdict (fst fk)) (fst fk) 0
  end.

Definition weapon_must_define (path : Path) (cparts : list seg) : ValidationIssue :=
  mkIssue path (_json_pointer cparts) "weapon must define beam/missile/point-defense fields".

(** A field of a weapon group that is present. *)
Definition in_present_group (cdict : list (string * json)) (fk : string * field_kind) : Prop :=
  (has_beam cdict = true /\ In fk beam_fields) \/
  (has_missile cdict = true /\ In fk missile_fields) \/
  (has_pd cdict = true /\ In fk pd_fields).

(** The issue reported for a field that is absent. *)
Definition missing_field_issue (path : Path) (cparts : list seg) (fk : string * field_kind)
  : ValidationIssue :=
  mkIssue path (_json_pointer (cparts ++ [SKey (fst fk)]))
    (fst fk +:+ match snd fk with
                | NumberField => " must be a number"
                | IntField => " must be an integer"
                end).

(** *** The prerequisite graph *)

(** The list [dfs] iterates for a tech: its [prereqs] when that is a list. *)
Definition prereq_list (tmap : list (string * list (string * json))) (tid : string)
  : list json :=
  match dict_get_default (dict_get_default tmap tid []) "prereqs" (JList []) with
  | JList l => l
  | _ => []
  end.




(** An issue of the cycle pass. *)
Definition cycle_issue (path : Path) (i : ValidationIssue) : Prop :=
  file i = path /\ pointer i = "" /\ exists cycle, message i = cycle_message cycle.

(** What a call of [dfs] leaves as it found it, and what it only extends. *)
Definition dfs_frame (path : Path) (st st' : dfs_state) : Prop :=
  stack st' = stack st /\ visiting st' = visiting st /\ visited st ⊆ visited st' /\
  exists l, sink st' = sink st ++ l /\ Forall (cycle_issue path) l.





(** *** The walk, instrumented *)






(** *** Kinds of issue by address *)






(** ** Example documents *)

Global Instance Path_eq_dec : EqDecision Path.
Proof. solve_decision. Defined.

Definition example_root : Path := mkPath "/" ["repo"].

(** An engine whose speed is exactly the bound 0.001. *)
Definition engine_at_bound : list (string * json) :=
  [("name", JStr "Ion Drive"); ("type", JStr "engine");
   ("speed_km_s", JFloat float_milli); ("fuel_use_per_mkm", JFloat float_zero)].

(** An engine with no speed at all. *)
Definition engine_stalled : list (string * json) :=
  [("name", JStr "Dead Drive"); ("type", JStr "engine");
   ("speed_km_s", JInt 0); ("fuel_use_per_mkm", JInt 1)].

(** A weapon whose only key is a field of the missile group. *)
Definition weapon_with_ammo_only : list (string * json) :=
  [("missile_ammo", JInt 3)].

(** A blueprint document with one installation that produces a resource. *)
Definition blueprints_with_mine : json :=
  JDict [("version", JInt 1);
         ("components", JDict []);
         ("designs", JList []);
         ("installations",
          JDict [("mine", JDict [("name", JStr "Mine");
                                 ("produces", JDict [("Duranium", JInt 1)])])])].

(** A repository with that blueprint document and no other file. *)
Definition fs_without_resources : FileSystem :=
  mkFS (fun p => if bool_decide (p = blueprints_path example_root)
                 then Parsed blueprints_with_mine else Missing)
       (fun _ _ => true).



(** Two tech entries with the same id. *)
Definition tech_lasers : list (string * json) :=
  [("id", JStr "lasers"); ("name", JStr "Lasers"); ("cost", JInt 10);
   ("prereqs", JList []); ("effects", JList [])].

Definition tech_lasers_again : list (string * json) :=
  [("id", JStr "lasers"); ("cost", JStr "free")].



(** *** Reading a pointer back *)

(** The inverse of [esc]: ["~0"] stands for a tilde, ["~1"] for a slash. *)
Fixpoint unesc (s : string) : string :=
  match s with
  | EmptyString => EmptyString
  | String a s' =>
      if Ascii.eqb a "~" then
        match s' with
        | String b s'' =>
            if Ascii.eqb b "0" then String "~" (unesc s'')
            else if Ascii.eqb b "1" then String "/" (unesc s'')
            else String a (unesc s')
        | EmptyString => String a EmptyString
        end
      else String a (unesc s')
  end.

(** [c in s] for a character. *)
Fixpoint contains_char (c : ascii) (s : string) : bool :=
  match s with
  | EmptyString => false
  | String a s' => Ascii.eqb a c || contains_char c s'
  end.

(** Two path segments of the same kind: two keys, or two indices. *)
Definition same_kind (p q : seg) : Prop :=
  match p, q with
  | SKey _, SKey _ => True
  | SIdx _, SIdx _ => True
  | _, _ => False
  end.

(** *** The sink is write-only *)

(** A computation that never reads the sink: run on a sink [s] it does what
    it does on the empty sink, with [s] in front of the issues it appends. *)
Definition sink_free {A : Type} (m : M A) : Prop :=
  forall s, m s = match m [] with
                  | Returned a l => Returned a (s ++ l)
                  | Raised e => Raised e
                  end.

(** The state of [dfs] with [s0] put in front of its sink. *)
Definition push_sink (s0 : list ValidationIssue) (st : dfs_state) : dfs_state :=
  mkDfs (visiting st) (visited st) (stack st) (s0 ++ sink st).

Definition push_sink_outcome (s0 : list ValidationIssue) (o : outcome dfs_state unit)
  : outcome dfs_state unit :=
  match o with
  | Returned a st => Returned a (push_sink s0 st)
  | Raised e => Raised e
  end.

(** *** Content files *)

(** The four content files, relative to the repository root. *)
Definition content_files : list (list string) :=
  [["data"; "blueprints"; "resources.json"];
   ["data"; "blueprints"; "starting_blueprints.json"];
   ["data"; "tech"; "tech_tree.json"];
   ["data"; "settings.json"]].

(** The path [root / rel] for a relative path given by its components. *)
Definition under (root : Path) (rel : list string) : Path :=
  mkPath (anchor root) (components root ++ rel).

(** An issue on one of the content files under [root], whose line shows
    the path relative to [root]. *)
Definition on_content_file (root : Path) (i : ValidationIssue) : Prop :=
  exists rel, In rel content_files /\ file i = under root rel /\
    format i root
    = (if String.eqb (pointer i) "" then String.concat "/" rel
       else String.concat "/" rel +:+ ":" +:+ pointer i) +:+ ": " +:+ message i.

(** [m] returns, whatever the sink, and appends at most [n] issues. *)
Definition at_most {A : Type} (n : nat) (m : M A) : Prop :=
  forall s, exists a l, m s = Returned a (s ++ l) /\ (length l <= n)%nat.

(** *** The tech maps *)

(** [tobj] is a tech entry the schema pass can record under [tid]: an
    object whose [id] is the non-empty string [tid]. *)
Definition has_id (tobj : json) (tid : string) : Prop :=
  exists t, tobj = JDict t /\ dict_get t "id" = JStr tid /\ tid <> "".

(** The two maps after the entry [tobj] at index [i], when its checks
    return: extended with the entry when it has an id not seen before. *)
Definition record_tech (maps : tech_maps) (i : nat) (tobj : json) : tech_maps :=
  match tobj with
  | JDict t =>
      match dict_get t "id" with
      | JStr (String a tid') =>
          let tid := String a tid' in
          if dict_has (tech_by_id maps) tid then maps
          else mkTechMaps (dict_set (tech_by_id maps) tid t)
                          (dict_set (tech_index_by_id maps) tid i)
      | _ => maps
      end
  | _ => maps
  end.

(** What the schema pass keeps true of its maps, [pre] being the entries
    seen so far: ids are recorded once, each with the index and the
    object of the first entry that has it, and every entry with an id is
    recorded. *)
Definition tech_maps_ok (pre : list json) (maps : tech_maps) : Prop :=
  NoDup (dict_keys (tech_by_id maps)) /\
  (forall tid t, dict_lookup (tech_by_id maps) tid = Some t ->
     exists i, dict_lookup (tech_index_by_id maps) tid = Some i /\
       pre !! i = Some (JDict t) /\ has_id (JDict t) tid /\
       forall i' x, (i' < i)%nat -> pre !! i' = Some x -> ~ has_id x tid) /\
  (forall i x tid, pre !! i = Some x -> has_id x tid ->
     dict_has (tech_by_id maps) tid = true).

(** [m] returns, whatever the sink, and the issues it appends are exactly
    those that satisfy [Q]. *)
Definition issues_exactly {A : Type} (Q : ValidationIssue -> Prop) (m : M A) : Prop :=
  forall s, exists a l, m s = Returned a (s ++ l) /\ forall i, In i l <-> Q i.

(** An issue of the reference pass, in terms of the [techs] array: entry
    [i] is the first with its id, and the string at index [j] of its
    [prereqs] list is not the id of any entry. *)
Definition unknown_prereq_issue (path : Path) (techs : list json) (iss : ValidationIssue)
  : Prop :=
  exists i t tid ps j pre,
    techs !! i = Some (JDict t) /\ has_id (JDict t) tid /\
    (forall i' x, (i' < i)%nat -> techs !! i' = Some x -> ~ has_id x tid) /\
    dict_get t "prereqs" = JList ps /\ ps !! j = Some (JStr pre) /\
    (forall i' x, techs !! i' = Some x -> ~ has_id x pre) /\
    iss = mkIssue path (_json_pointer [SKey "techs"; SIdx i; SKey "prereqs"; SIdx j])
            ("unknown prereq tech '" +:+ pre +:+ "'").





(** *** The blueprint maps *)

(** The object has a [name] that is a non-empty string. *)
Definition well_named (cdict : list (string * json)) : Prop :=
  exists n, dict_get cdict "name" = JStr n /\ n <> "".

(** The component map after one entry of [comps.items()], when the checks
    of the entry return. *)
Definition keep_component (components : list (string * list (string * json)))
    (entry : string * json) : list (string * list (string * json)) :=
  match entry with
  | (String a cid', JDict cdict) =>
      match dict_get cdict "name" with
      | JStr (String _ _) => dict_set components (String a cid') cdict
      | _ => components
      end
  | _ => components
  end.

(** The installation map after one entry of [insts.items()], when the
    checks of the entry return. *)
Definition keep_installation (installations : list (string * list (string * json)))
    (entry : string * json) : list (string * list (string * json)) :=
  match entry with
  | (String a iid', JDict inst) => dict_set installations (String a iid') inst
  | _ => installations
  end.

(** *** Integers too large for a float *)

(** Some integer inside the value is too large for [float()]. *)
Fixpoint has_big_int (v : json) : bool :=
  match v with
  | JInt z => overflows (JInt z)
  | JList l => existsb has_big_int l
  | JDict kvs => existsb (fun kv => has_big_int (snd kv)) kvs
  | _ => false
  end.


(** [v] is part of a document whose flag is [c]: it holds no integer that
    is too large unless the document does. *)
Definition safe (c : bool) (v : json) : Prop := c = false -> has_big_int v = false.

Definition safe_dict (c : bool) (o : option (list (string * json))) : Prop :=
  match o with
  | Some d => safe c (JDict d)
  | None => True
  end.

Definition safe_list (c : bool) (o : option (list json)) : Prop :=
  match o with
  | Some l => safe c (JList l)
  | None => True
  end.

(** [m] raises nothing but [OverflowError], and that only when [c] holds;
    what it returns satisfies [P]. *)
Definition guarded {A : Type} (c : bool) (P : A -> Prop) (m : M A) : Prop :=
  forall s, match m s with
            | Returned a _ => P a
            | Raised e => e = OverflowError /\ c = true
            end.


(** *** The command line *)








(** *** Designs *)

(** The checks [validate_design] runs on a design object after its id:
    name, role and component list. *)
Definition design_checks (path : Path) (components : list (string * list (string * json)))
    (i : nat) (d : list (string * json)) : M unit :=
  let dparts := [SKey "designs"; SIdx i] in
  _require_str path (dparts ++ [SKey "name"]) (dict_get d "name") "name" ;;
  role <- _require_str path (dparts ++ [SKey "role"]) (dict_get d "role") "role" ;;
  match role with
  | Some r =>
      if bool_decide (r ∈ _ALLOWED_SHIP_ROLES) then ret tt
      else append_issue (mkIssue path (_json_pointer (dparts ++ [SKey "role"]))
                           ("unknown ship role '" +:+ r +:+ "'"))
  | None => ret tt
  end ;;
  comp_list <- _require_list path (dparts ++ [SKey "components"])
                 (dict_get d "components") "components" ;;
  match comp_list with
  | Some comp_list =>
      for_each (validate_design_component path dparts components) (enumerate comp_list)
  | None => ret tt
  end.

(** The issue a design gets when its id was seen before. *)
Definition duplicate_design_issue (path : Path) (i : nat) (did : string) : ValidationIssue :=
  mkIssue path (_json_pointer [SKey "designs"; SIdx i; SKey "id"])
    ("duplicate design id '" +:+ did +:+ "'").

(** The keys of the [resources] object of the catalog, when the catalog is
    an object that has one. *)
Definition catalog_keys (st : file_state) : gset string :=
  match st with
  | Parsed (JDict top) =>
      match dict_get top "resources" with
      | JDict resources => key_set resources
      | _ => ∅
      end
  | _ => ∅
  end.

(** A repository whose only file is a resource catalog with an entry that
    is not an object. *)
Definition fs_catalog_with_bad_entry : FileSystem :=
  mkFS (fun p => if bool_decide (p = resources_path example_root)
                 then Parsed (JDict [("version", JInt 1);
                                     ("resources", JDict [("Duranium", JInt 5)])])
                 else Missing)
       (fun _ _ => true).

(** Component entries: a named hull, and a plate without a name. *)
Definition comps_hull_and_plate : list (string * json) :=
  [("hull", JDict [("name", JStr "Hull"); ("type", JStr "armor")]);
   ("plate", JDict [("type", JStr "armor")])].

(** Installation entries: a mine without a name. *)
Definition insts_mine : list (string * json) := [("mine", JDict [])].

(** A tech that lists itself and an undefined tech as prerequisites. *)
Definition tech_warp : list (string * json) :=
  [("id", JStr "warp"); ("name", JStr "Warp"); ("cost", JInt 5);
   ("prereqs", JList [JStr "warp"; JStr "gravitics"]); ("effects", JList [])].

(** * Properties *)

(** ** Strings and pointers *)

Lemma string_app_cons (x : ascii) (a b : string) : String x a +:+ b = String x (a +:+ b).
Proof. reflexivity. Qed.

Lemma string_app_assoc (a b c : string) : (a +:+ b) +:+ c = a +:+ (b +:+ c).
Proof.
  induction a as [|x a IH]; [reflexivity|].
  now rewrite !string_app_cons, IH.
Qed.

Lemma concat_snoc (sep : string) (l : list string) (x : string) :
  l <> [] -> String.concat sep (l ++ [x]) = String.concat sep l +:+ sep +:+ x.
Proof.
  induction l as [|y l IH]; intros Hne; [congruence|].
  destruct l as [|z l].
  - reflexivity.
  - change (String.concat sep ((y :: z :: l) ++ [x]))
      with (y +:+ sep +:+ String.concat sep ((z :: l) ++ [x])).
    rewrite IH by discriminate.
    change (String.concat sep (y :: z :: l)) with (y +:+ sep +:+ String.concat sep (z :: l)).
    now rewrite !string_app_assoc.
Qed.

Lemma json_pointer_snoc (parts : list seg) (x : seg) :
  _json_pointer (parts ++ [x]) = _json_pointer parts +:+ "/" +:+ seg_text x.
Proof.
  destruct parts as [|p parts]; [reflexivity|].
  unfold _json_pointer.
  change ((p :: parts) ++ [x]) with (p :: (parts ++ [x])).
  cbn [map]. rewrite map_app. cbn [map].
  change (seg_text p :: map seg_text parts ++ [seg_text x])
    with ((seg_text p :: map seg_text parts) ++ [seg_text x]).
  rewrite concat_snoc by discriminate.
  now rewrite string_app_assoc.
Qed.


(** ** The monad *)

Lemma bind_returned {A B : Type} (m : M A) (k : A -> M B) s a s' :
  m s = Returned a s' -> bind m k s = k a s'.
Proof. unfold bind. now intros ->. Qed.

Lemma bind_inv {A B : Type} (m : M A) (k : A -> M B) s b s' :
  bind m k s = Returned b s' -> exists a s1, m s = Returned a s1 /\ k a s1 = Returned b s'.
Proof. unfold bind. destruct (m s) as [a s1|e]; [eauto | discriminate]. Qed.


Lemma fold_each_app {A B : Type} (body : B -> A -> M B) (l1 l2 : list A) b s :
  fold_each body b (l1 ++ l2) s
  = bind (fold_each body b l1) (fun b' => fold_each body b' l2) s.
Proof.
  revert b s. induction l1 as [|x l1 IH]; intros b s; simpl; [reflexivity|].
  unfold bind in *. destruct (body b x s) as [b1 s1|e]; [apply IH | reflexivity].
Qed.

Lemma enumerate_from_app {A : Type} (n : nat) (l1 l2 : list A) :
  enumerate_from n (l1 ++ l2)
  = enumerate_from n l1 ++ enumerate_from (n + length l1) l2.
Proof.
  revert n. induction l1 as [|x l1 IH]; intros n; simpl.
  - now rewrite Nat.add_0_r.
  - rewrite IH. do 3 f_equal. lia.
Qed.

(** ** Append-only sink *)

Lemma all_issues_ret {A : Type} P (a : A) : all_issues P (ret a).
Proof. intros s. exists []. now rewrite app_nil_r. Qed.

Lemma all_issues_raise {A : Type} P e : all_issues P (@raise A e).
Proof. intros s. exact I. Qed.

Lemma all_issues_append (P : ValidationIssue -> Prop) i : P i -> all_issues P (append_issue i).
Proof. intros H s. exists [i]. split; [reflexivity | now constructor]. Qed.

Lemma all_issues_bind {A B : Type} P (m : M A) (k : A -> M B) :
  all_issues P m -> (forall a, all_issues P (k a)) -> all_issues P (bind m k).
Proof.
  intros Hm Hk s. unfold bind. specialize (Hm s).
  destruct (m s) as [a s1|e]; [|exact I].
  destruct Hm as (l1 & -> & H1). specialize (Hk a (s ++ l1)).
  destruct (k a (s ++ l1)) as [b s2|e]; [|exact I].
  destruct Hk as (l2 & -> & H2). exists (l1 ++ l2).
  split; [now rewrite app_assoc | now apply Forall_app].
Qed.

Lemma all_issues_for_each {A : Type} P (body : A -> M unit) (l : list A) :
  (forall x, all_issues P (body x)) -> all_issues P (for_each body l).
Proof.
  intros H. induction l as [|x l IH]; simpl.
  - apply all_issues_ret.
  - apply all_issues_bind; [apply H | intros _; apply IH].
Qed.

Lemma all_issues_fold_each {A B : Type} P (body : B -> A -> M B) (l : list A) b :
  (forall b x, all_issues P (body b x)) -> all_issues P (fold_each body b l).
Proof.
  intros H. revert b. induction l as [|x l IH]; intros b; simpl.
  - apply all_issues_ret.
  - apply all_issues_bind; [apply H | intros b'; apply IH].
Qed.

Lemma all_issues_weaken {A : Type} (P Q : ValidationIssue -> Prop) (m : M A) :
  (forall i, P i -> Q i) -> all_issues P m -> all_issues Q m.
Proof.
  intros HPQ Hm s. specialize (Hm s). destruct (m s) as [a s1|e]; [|exact I].
  destruct Hm as (l & -> & Hl). exists l. split; [reflexivity|].
  eapply Forall_impl; eauto.
Qed.






(** ** Primitive checkers *)

Lemma require_dict_cleanly f p v w s : checks_cleanly (_require_dict f p v w) s.
Proof. destruct v; try (right; eexists; reflexivity). left; eexists; reflexivity. Qed.

Lemma require_list_cleanly f p v w s : checks_cleanly (_require_list f p v w) s.
Proof. destruct v; try (right; eexists; reflexivity). left; eexists; reflexivity. Qed.

Lemma require_str_cleanly f p v w s : checks_cleanly (_require_str f p v w) s.
Proof.
  destruct v as [| | | |[|a t]| |]; try (right; eexists; reflexivity).
  left; eexists; reflexivity.
Qed.

Lemma require_bool_cleanly f p v w s : checks_cleanly (_require_bool f p v w) s.
Proof. destruct v; try (right; eexists; reflexivity). left; eexists; reflexivity. Qed.

Lemma require_int_cleanly f p v w m s : checks_cleanly (_require_int f p v w m) s.
Proof.
  destruct v; try (right; eexists; reflexivity).
  destruct m as [m|]; simpl; [|left; eexists; reflexivity].
  destruct (z <? m); [right | left]; eexists; reflexivity.
Qed.

(** [_require_number] with a bound, as one equation. *)
Lemma require_number_run f p v w m s :
  _require_number f p v w (Some m) s
  = if overflows v then Raised OverflowError
    else Returned (number_result v m) (s ++ number_issues f p v w m).
Proof.
  unfold _require_number, number_issues, number_result, overflows, bind.
  destruct v; simpl; try reflexivity.
  - destruct (float_of_int z) as [e|x] eqn:E; simpl.
    + unfold float_of_int in E.
      destruct (binary_normalize prec64 emax64 z 0 false); congruence.
    + destruct (float_lt x m); [reflexivity | now rewrite app_nil_r].
  - destruct (float_lt f0 m); [reflexivity | now rewrite app_nil_r].
Qed.

Lemma require_int_run f p v w m s :
  _require_int f p v w (Some m) s = Returned (int_result v m) (s ++ int_issues f p v w m).
Proof.
  unfold _require_int, int_issues, int_result.
  destruct v; try reflexivity.
  destruct (z <? m); [reflexivity | unfold ret; now rewrite app_nil_r].
Qed.

Lemma number_issues_nil f p v w m :
  overflows v = false -> (number_issues f p v w m = [] <-> number_at_least v m).
Proof.
  unfold number_issues, number_at_least, overflows.
  destruct v; simpl; intros Ho; try (split; [discriminate | intros (x & [=] & _)]).
  - destruct (float_of_int z) as [e|x]; [discriminate|].
    destruct (float_lt x m) eqn:L; split; try discriminate; eauto.
    intros (y & [= <-] & Hy). congruence.
  - destruct (float_lt f0 m) eqn:L; split; try discriminate; eauto.
    intros (y & [= <-] & Hy). congruence.
Qed.

Lemma number_issues_below f p v w m :
  number_below v m ->
  overflows v = false /\
  number_issues f p v w m
  = [mkIssue f (_json_pointer p) (w +:+ " must be >= " +:+ float_repr m)].
Proof.
  unfold number_issues, number_below, overflows. intros (x & Hx & L).
  destruct v; simpl in *; try discriminate.
  - destruct (float_of_int z); [discriminate|]. injection Hx as ->. now rewrite L.
  - injection Hx as ->. now rewrite L.
Qed.

Lemma number_issues_not_number f p v w m :
  _is_number v = false ->
  overflows v = false /\
  number_issues f p v w m = [mkIssue f (_json_pointer p) (w +:+ " must be a number")].
Proof.
  unfold number_issues. intros H. rewrite H.
  split; [destruct v; simpl in *; congruence | reflexivity].
Qed.

Lemma number_at_least_no_overflow v m : number_at_least v m -> overflows v = false.
Proof.
  intros (x & Hx & _). destruct v; simpl in *; try reflexivity.
  destruct (float_of_int z); [discriminate | reflexivity].
Qed.

Lemma float_of_int_too_large : float_of_int (2 ^ 1024) = inl OverflowError.
Proof. vm_compute. reflexivity. Qed.

(** The largest integer [float] converts, and the first one it does not. *)
Lemma float_of_int_threshold :
  float_of_int (2 ^ 1024 - 2 ^ 970 - 1) = inr (S754_finite false 9007199254740991 971) /\
  float_of_int (2 ^ 1024 - 2 ^ 970) = inl OverflowError.
Proof. split; vm_compute; reflexivity. Qed.

(** [float_milli] is the binary64 nearest to one thousandth: it is the
    correctly rounded quotient of 1 by 1000. *)
Lemma float_milli_is_one_thousandth :
  SFdiv prec64 emax64 (binary_normalize prec64 emax64 1 0 false)
    (binary_normalize prec64 emax64 1000 0 false) = float_milli.
Proof. vm_compute. reflexivity. Qed.

(** C7 (the code departs from the claim): [_require_dict], [_require_list],
    [_require_str], [_require_int] and [_require_bool] are total on every
    JSON value and either return the value with the sink untouched or
    return [None] after appending exactly one issue.  [_require_number]
    does the same on every value but an integer too large for a binary64:
    there [float(v)] raises [OverflowError], nothing is appended and
    nothing is returned; the integer [2 ** 1024] is such a value. *)
Theorem primitive_checkers_total_but_number :
  (forall f p v w s, checks_cleanly (_require_dict f p v w) s) /\
  (forall f p v w s, checks_cleanly (_require_list f p v w) s) /\
  (forall f p v w s, checks_cleanly (_require_str f p v w) s) /\
  (forall f p v w m s, checks_cleanly (_require_int f p v w m) s) /\
  (forall f p v w s, checks_cleanly (_require_bool f p v w) s) /\
  (forall f p v w m s,
      if overflows v then _require_number f p v w (Some m) s = Raised OverflowError
      else checks_cleanly (_require_number f p v w (Some m)) s) /\
  overflows (JInt (2 ^ 1024)) = true /\
  (forall f p w m s, _require_number f p (JInt (2 ^ 1024)) w (Some m) s = Raised OverflowError).
Proof.
  refine (conj _ (conj _ (conj _ (conj _ (conj _ (conj _ (conj _ _))))))).
  - apply require_dict_cleanly.
  - apply require_list_cleanly.
  - apply require_str_cleanly.
  - apply require_int_cleanly.
  - apply require_bool_cleanly.
  - intros f p v w m s. unfold checks_cleanly. rewrite require_number_run.
    destruct (overflows v) eqn:Ho; [reflexivity|].
    unfold number_result, number_issues.
    destruct v; simpl in *; try (right; eexists; reflexivity).
    + destruct (float_of_int z) as [e|x]; [discriminate|].
      destruct (float_lt x m); [right | left]; eexists; try reflexivity.
      now rewrite app_nil_r.
    + destruct (float_lt f0 m); [right | left]; eexists; try reflexivity.
      now rewrite app_nil_r.
  - unfold overflows. now rewrite float_of_int_too_large.
  - intros f p w m s. rewrite require_number_run.
    unfold overflows. now rewrite float_of_int_too_large.
Qed.

(** ** Engines: the speed bound (C3) *)

Lemma app_eq_self_nil {A : Type} (s l : list A) : s ++ l = s -> l = [].
Proof.
  intros H. apply (app_inv_head s). now rewrite app_nil_r.
Qed.

Lemma engine_checks_run path cparts cdict s :
  component_type_checks path cparts cdict (Some "engine") s
  = if overflows (dict_get cdict "speed_km_s") then Raised OverflowError
    else if overflows (dict_get cdict "fuel_use_per_mkm") then Raised OverflowError
    else Returned tt
           (s ++ number_issues path (cparts ++ [SKey "speed_km_s"])
                   (dict_get cdict "speed_km_s") "speed_km_s" float_milli
              ++ number_issues path (cparts ++ [SKey "fuel_use_per_mkm"])
                   (dict_get cdict "fuel_use_per_mkm") "fuel_use_per_mkm" float_zero).
Proof.
  unfold component_type_checks.
  change (ctype_is (Some "engine") "engine") with true. cbv iota.
  unfold bind. rewrite require_number_run.
  destruct (overflows (dict_get cdict "speed_km_s")); [reflexivity|].
  rewrite require_number_run.
  destruct (overflows (dict_get cdict "fuel_use_per_mkm")); [reflexivity|].
  unfold ret. now rewrite <- app_assoc.
Qed.

(** C3 (amended): for a component whose declared type is 'engine' the
    bound on the speed is inclusive.  The type checks add no issue exactly
    when [speed_km_s] is a number not below 0.001 and [fuel_use_per_mkm] a
    number not below 0; a speed below 0.001, or absent or not a number, is
    reported at the field's address (and so is such a fuel use), while a
    speed of exactly 0.001 is accepted. *)
Theorem engine_speed_bound_is_inclusive path cparts cdict s :
  let speed := dict_get cdict "speed_km_s" in
  let fuel := dict_get cdict "fuel_use_per_mkm" in
  let run := component_type_checks path cparts cdict (Some "engine") s in
  let at_speed := _json_pointer (cparts ++ [SKey "speed_km_s"]) in
  let at_fuel := _json_pointer (cparts ++ [SKey "fuel_use_per_mkm"]) in
  (run = Returned tt s
   <-> number_at_least speed float_milli /\ number_at_least fuel float_zero) /\
  (number_below speed float_milli -> overflows fuel = false ->
   exists l, run = Returned tt (s ++ l) /\
     In (mkIssue path at_speed ("speed_km_s must be >= " +:+ float_repr float_milli)) l) /\
  (_is_number speed = false -> overflows fuel = false ->
   exists l, run = Returned tt (s ++ l) /\
     In (mkIssue path at_speed "speed_km_s must be a number") l) /\
  (number_below fuel float_zero -> overflows speed = false ->
   exists l, run = Returned tt (s ++ l) /\
     In (mkIssue path at_fuel ("fuel_use_per_mkm must be >= " +:+ float_repr float_zero)) l) /\
  (_is_number fuel = false -> overflows speed = false ->
   exists l, run = Returned tt (s ++ l) /\
     In (mkIssue path at_fuel "fuel_use_per_mkm must be a number") l) /\
  number_at_least (JFloat float_milli) float_milli.
Proof.
  intros speed fuel run at_speed at_fuel. subst run. rewrite engine_checks_run.
  fold speed fuel.
  refine (conj _ (conj _ (conj _ (conj _ (conj _ _))))).
  - split.
    + destruct (overflows speed) eqn:Hs; [discriminate|].
      destruct (overflows fuel) eqn:Hf; [discriminate|].
      intros [= H]. apply app_eq_self_nil in H. apply app_eq_nil in H as [H1 H2].
      split; eapply number_issues_nil; eauto.
    + intros [Hs Hf].
      rewrite (number_at_least_no_overflow _ _ Hs), (number_at_least_no_overflow _ _ Hf).
      apply (number_issues_nil path (cparts ++ [SKey "speed_km_s"]) _ "speed_km_s") in Hs;
        [|eapply number_at_least_no_overflow; eauto].
      apply (number_issues_nil path (cparts ++ [SKey "fuel_use_per_mkm"]) _ "fuel_use_per_mkm")
        in Hf; [|eapply number_at_least_no_overflow; eauto].
      rewrite Hs, Hf. now rewrite !app_nil_r.
  - intros Hb Hf.
    destruct (number_issues_below path (cparts ++ [SKey "speed_km_s"]) _ "speed_km_s" _ Hb)
      as [Ho Hi].
    rewrite Ho, Hf, Hi. eexists. split; [reflexivity|]. now left.
  - intros Hb Hf.
    destruct (number_issues_not_number path (cparts ++ [SKey "speed_km_s"]) _ "speed_km_s"
                float_milli Hb) as [Ho Hi].
    rewrite Ho, Hf, Hi. eexists. split; [reflexivity|]. now left.
  - intros Hb Hs.
    destruct (number_issues_below path (cparts ++ [SKey "fuel_use_per_mkm"]) _
                "fuel_use_per_mkm" _ Hb) as [Ho Hi].
    rewrite Ho, Hs, Hi. eexists. split; [reflexivity|]. apply in_or_app. right. now left.
  - intros Hb Hs.
    destruct (number_issues_not_number path (cparts ++ [SKey "fuel_use_per_mkm"]) _
                "fuel_use_per_mkm" float_zero Hb) as [Ho Hi].
    rewrite Ho, Hs, Hi. eexists. split; [reflexivity|]. apply in_or_app. right. now left.
  - exists float_milli. split; reflexivity.
Qed.

(** ** Resource maps (C6) *)



(** ** Weapons: field groups (C5) *)

Lemma string_length_app (a b : string) :
  String.length (a +:+ b) = (String.length a + String.length b)%nat.
Proof.
  induction a as [|x a IH]; [reflexivity|].
  rewrite string_app_cons. simpl. now rewrite IH.
Qed.

Lemma json_pointer_snoc_neq (parts : list seg) (x : seg) :
  _json_pointer (parts ++ [x]) <> _json_pointer parts.
Proof.
  rewrite json_pointer_snoc. intros H. apply (f_equal String.length) in H.
  rewrite string_length_app in H. rewrite string_app_cons in H. simpl in H. lia.
Qed.

Lemma weapon_checks_run path cparts cdict s :
  component_type_checks path cparts cdict (Some "weapon") s
  = if existsb (field_overflows cdict) (weapon_fields_checked cdict)
    then Raised OverflowError
    else Returned tt
           (s ++ (if has_beam cdict || has_missile cdict || has_pd cdict then []
                  else [weapon_must_define path cparts])
              ++ flat_map (field_issues path cparts cdict) (weapon_fields_checked cdict)).
Proof.
  unfold component_type_checks.
  cbn [ctype_is String.eqb Ascii.eqb Bool.eqb]. cbv zeta.
  unfold weapon_fields_checked, has_beam, has_missile, has_pd, weapon_must_define.
  set (hb := dict_has cdict "damage" || dict_has cdict "weapon_range_mkm").
  set (hm := dict_has cdict "missile_damage" || dict_has cdict "missile_range_mkm").
  set (hp := dict_has cdict "point_defense_damage"
             || dict_has cdict "point_defense_range_mkm").
  unfold bind, ret, append_issue.
  destruct hb, hm, hp; unfold beam_fields, missile_fields, pd_fields;
    cbn [negb orb app existsb flat_map field_overflows field_issues fst snd];
    repeat (progress (rewrite ?require_number_run, ?require_int_run;
                      try match goal with
                          | |- context [if overflows ?v then _ else _] =>
                              destruct (overflows v)
                          end; cbn [orb]; try reflexivity));
    rewrite <- ?app_assoc, ?app_nil_r; reflexivity.
Qed.

Lemma dict_get_absent (d : list (string * json)) k : dict_has d k = false -> dict_get d k = JNull.
Proof. unfold dict_has, dict_get. now destruct (dict_lookup d k). Qed.

Lemma int_issues_nil f p v w m : int_issues f p v w m = [] <-> int_at_least v m.
Proof.
  unfold int_issues, int_at_least. destruct v; try (split; [discriminate | intros (x & [=] & _)]).
  destruct (z <? m) eqn:L; split; try discriminate.
  - intros (x & [= <-] & Hx). apply Z.ltb_lt in L. lia.
  - intros _. exists z. split; [reflexivity|]. apply Z.ltb_ge in L. lia.
  - reflexivity.
Qed.

Lemma field_issues_pointer path cparts cdict fk i :
  In i (field_issues path cparts cdict fk) ->
  pointer i = _json_pointer (cparts ++ [SKey (fst fk)]).
Proof.
  destruct fk as [f [|]]; unfold field_issues, number_issues, int_issues; simpl.
  - destruct (negb (_is_number (dict_get cdict f))); [intros [<-|[]]; reflexivity|].
    destruct (json_float (dict_get cdict f)) as [x|]; [|intros []].
    destruct (float_lt x float_zero); [intros [<-|[]]; reflexivity | intros []].
  - destruct (dict_get cdict f); try (intros [<-|[]]; reflexivity).
    destruct (z <? 0); [intros [<-|[]]; reflexivity | intros []].
Qed.

Lemma in_present_group_checked cdict fk :
  in_present_group cdict fk <-> In fk (weapon_fields_checked cdict).
Proof.
  clear float_repr date_fromisoformat_ok.
  unfold in_present_group, weapon_fields_checked.
  rewrite !in_app_iff.
  destruct (has_beam cdict), (has_missile cdict), (has_pd cdict); simpl In; intuition congruence.
Qed.

(** C5 (amended): for a component whose declared type is 'weapon', a group
    (beam, missile, point defense) is present when its damage key or its
    range key is in the object; the speed, reload and ammo keys of the
    missile group do not make it present.  With no group present exactly one
    issue is added, that the weapon must define beam/missile/point-defense
    fields.  With at least one group present that issue is not added; the
    issues added are those of the fields of the present groups, each field
    checked on its own (beam: damage and range numbers >= 0; missile:
    damage, range and speed numbers >= 0, reload and ammo integers >= 0;
    point defense: damage and range numbers >= 0): a field adds no issue
    exactly when its value is valid, and a field that is absent from the
    object adds the issue of a missing value at its own address.  The run
    returns unless a checked number is an integer that [float] cannot
    convert. *)
Theorem weapon_field_groups path cparts cdict s :
  let run := component_type_checks path cparts cdict (Some "weapon") s in
  let any := has_beam cdict || has_missile cdict || has_pd cdict in
  let added := flat_map (field_issues path cparts cdict) (weapon_fields_checked cdict) in
  (any = false -> run = Returned tt (s ++ [weapon_must_define path cparts])) /\
  (any = true ->
     (existsb (field_overflows cdict) (weapon_fields_checked cdict) = false ->
      run = Returned tt (s ++ added)) /\
     (forall s', run = Returned tt s' -> s' = s ++ added) /\
     ~ In (weapon_must_define path cparts) added /\
     (forall fk, in_present_group cdict fk ->
                 incl (field_issues path cparts cdict fk) added)) /\
  (forall fk, field_overflows cdict fk = false ->
     (field_issues path cparts cdict fk = [] <-> field_valid (snd fk) (dict_get cdict (fst fk)))) /\
  (forall fk, dict_has cdict (fst fk) = false ->
     field_issues path cparts cdict fk = [missing_field_issue path cparts fk]).
Proof.
  cbv zeta. rewrite weapon_checks_run.
  refine (conj _ (conj _ (conj _ _))).
  - intros Hany. rewrite Hany.
    assert (weapon_fields_checked cdict = []) as ->.
    { unfold weapon_fields_checked.
      destruct (has_beam cdict), (has_missile cdict), (has_pd cdict); try discriminate.
      reflexivity. }
    reflexivity.
  - intros Hany. rewrite Hany. cbn [app].
    refine (conj _ (conj _ (conj _ _))).
    + now intros ->.
    + intros s'.
      destruct (existsb (field_overflows cdict) (weapon_fields_checked cdict));
        [discriminate | now intros [= <-]].
    + intros Hin. apply in_flat_map in Hin as (fk & _ & Hin).
      apply field_issues_pointer in Hin. simpl in Hin.
      symmetry in Hin. now apply json_pointer_snoc_neq in Hin.
    + intros fk Hfk i Hi. apply in_flat_map. exists fk. split; [|exact Hi].
      now apply in_present_group_checked.
  - intros [f [|]] Ho; unfold field_issues, field_valid; simpl in *.
    + now apply number_issues_nil.
    + apply int_issues_nil.
  - intros [f [|]] Hf; unfold field_issues, missing_field_issue; simpl in *;
      now rewrite (dict_get_absent _ _ Hf).
Qed.

(** ** Tech tree: duplicate ids (C4) *)

Lemma require_str_ok f p t w s :
  t <> "" -> _require_str f p (JStr t) w s = Returned (Some t) s.
Proof. destruct t; [congruence | reflexivity]. Qed.

Lemma dict_has_set_same {V : Type} (d : list (string * V)) k v :
  dict_has (dict_set d k v) k = true.
Proof.
  unfold dict_has. induction d as [|[k' v'] d IH]; simpl.
  - now rewrite String.eqb_refl.
  - destruct (String.eqb k' k) eqn:E; simpl; rewrite E; [reflexivity | exact IH].
Qed.

Lemma dict_has_set_mono {V : Type} (d : list (string * V)) k v k0 :
  dict_has d k0 = true -> dict_has (dict_set d k v) k0 = true.
Proof.
  unfold dict_has. induction d as [|[k' v'] d IH]; simpl; [discriminate|].
  destruct (String.eqb k' k) eqn:E; simpl; destruct (String.eqb k' k0); auto.
Qed.

(** The maps after one entry: unchanged, or extended with the entry's id. *)
Lemma validate_tech_maps path cids iids maps i tobj s maps' s' :
  validate_tech path cids iids maps (i, tobj) s = Returned maps' s' ->
  maps' = maps \/
  exists t tid, tobj = JDict t /\
    maps' = mkTechMaps (dict_set (tech_by_id maps) tid t) (dict_set (tech_index_by_id maps) tid i).
Proof.
  unfold validate_tech. intros H.
  apply bind_inv in H as (t & s1 & Ht & H).
  destruct t as [t|]; [|left; now injection H].
  assert (tobj = JDict t) as ->.
  { destruct tobj; simpl in Ht; unfold bind, append_issue, ret in Ht; congruence. }
  apply bind_inv in H as (tid & s2 & Htid & H).
  destruct tid as [tid|]; [|left; now injection H].
  destruct (dict_has (tech_by_id maps) tid).
  - apply bind_inv in H as (? & ? & _ & H). left. now injection H.
  - right. exists t, tid. split; [reflexivity|].
    repeat (apply bind_inv in H as (? & ? & _ & H)). now injection H.
Qed.

Lemma validate_tech_keeps path cids iids maps it s maps' s' k :
  validate_tech path cids iids maps it s = Returned maps' s' ->
  dict_has (tech_by_id maps) k = true -> dict_has (tech_by_id maps') k = true.
Proof.
  destruct it as [i tobj]. intros H Hk.
  apply validate_tech_maps in H as [->|(t & tid & _ & ->)]; [exact Hk|].
  simpl. now apply dict_has_set_mono.
Qed.

Lemma validate_tech_records path cids iids maps i t tid s maps' s' :
  validate_tech path cids iids maps (i, JDict t) s = Returned maps' s' ->
  dict_get t "id" = JStr tid -> tid <> "" ->
  dict_has (tech_by_id maps') tid = true.
Proof.
  unfold validate_tech. intros H Hid Hne.
  unfold _require_dict in H. unfold bind at 1 in H. unfold ret at 1 in H.
  rewrite Hid in H. unfold bind at 1 in H. rewrite require_str_ok in H by exact Hne.
  destruct (dict_has (tech_by_id maps) tid) eqn:E.
  - apply bind_inv in H as (? & ? & _ & H). injection H as <- _. exact E.
  - repeat (apply bind_inv in H as (? & ? & _ & H)). injection H as <- _.
    simpl. apply dict_has_set_same.
Qed.

Lemma tech_loop_keeps path cids iids l maps s maps' s' k :
  fold_each (validate_tech path cids iids) maps l s = Returned maps' s' ->
  dict_has (tech_by_id maps) k = true -> dict_has (tech_by_id maps') k = true.
Proof.
  revert maps s. induction l as [|x l IH]; intros maps s H Hk; simpl in H.
  - injection H as <- _. exact Hk.
  - apply bind_inv in H as (m1 & s1 & H1 & H). eapply IH; [exact H|].
    eapply validate_tech_keeps; eauto.
Qed.

Lemma in_enumerate_from {A : Type} (l : list A) n x :
  In x l -> exists j, In (j, x) (enumerate_from n l).
Proof.
  revert n. induction l as [|y l IH]; intros n; [intros []|].
  intros [->|Hin]; simpl.
  - exists n. now left.
  - destruct (IH (S n) Hin) as (j & Hj). exists j. now right.
Qed.

Lemma tech_loop_records path cids iids l maps s maps' s' j t tid :
  fold_each (validate_tech path cids iids) maps l s = Returned maps' s' ->
  In (j, JDict t) l -> dict_get t "id" = JStr tid -> tid <> "" ->
  dict_has (tech_by_id maps') tid = true.
Proof.
  revert maps s. induction l as [|x l IH]; intros maps s H Hin Hid Hne; [destruct Hin|].
  simpl in H. apply bind_inv in H as (m1 & s1 & H1 & H).
  destruct Hin as [->|Hin].
  - eapply tech_loop_keeps; [exact H|]. eapply validate_tech_records; eauto.
  - eapply IH; eauto.
Qed.

(** C4: a tech entry (an object with a non-empty string id) whose id is
    also the id of an earlier entry of the [techs] array gets exactly one
    issue, the duplicate-id issue at the address of its [id], whatever its
    name, cost, prerequisite list and effects are; the tech map and the
    index map are left as they were, and the loop goes on with the next
    entry. *)
Theorem duplicate_tech_id_short_circuits path cids iids pre t tid post s maps1 s1 :
  dict_get t "id" = JStr tid -> tid <> "" ->
  (exists earlier, In (JDict earlier) pre /\ dict_get earlier "id" = JStr tid) ->
  fold_each (validate_tech path cids iids) (mkTechMaps [] []) (enumerate pre) s
    = Returned maps1 s1 ->
  let i := length pre in
  let duplicate := mkIssue path (_json_pointer [SKey "techs"; SIdx i; SKey "id"])
                     ("duplicate tech id '" +:+ tid +:+ "'") in
  validate_tech path cids iids maps1 (i, JDict t) s1 = Returned maps1 (s1 ++ [duplicate]) /\
  fold_each (validate_tech path cids iids) (mkTechMaps [] [])
    (enumerate (pre ++ JDict t :: post)) s
  = fold_each (validate_tech path cids iids) maps1 (enumerate_from (S i) post)
      (s1 ++ [duplicate]).
Proof.
  intros Hid Hne (earlier & Hin & Hearlier) Hpre. cbv zeta.
  assert (Hhas : dict_has (tech_by_id maps1) tid = true).
  { destruct (in_enumerate_from pre 0 _ Hin) as (j & Hj).
    eapply tech_loop_records; eauto. }
  assert (Hstep : validate_tech path cids iids maps1 (length pre, JDict t) s1
                  = Returned maps1
                      (s1 ++ [mkIssue path
                                (_json_pointer [SKey "techs"; SIdx (length pre); SKey "id"])
                                ("duplicate tech id '" +:+ tid +:+ "'")])).
  { unfold validate_tech, _require_dict. unfold bind at 1. unfold ret at 1.
    rewrite Hid. unfold bind at 1. rewrite require_str_ok by exact Hne.
    rewrite Hhas. reflexivity. }
  split; [exact Hstep|].
  unfold enumerate. rewrite enumerate_from_app, fold_each_app.
  rewrite (bind_returned _ _ _ _ _ Hpre). simpl enumerate_from. simpl fold_each.
  now rewrite (bind_returned _ _ _ _ _ Hstep).
Qed.

(** ** Cycle detection: the walk returns (C8) *)

Lemma dict_has_key_set {V : Type} (d : list (string * V)) k :
  dict_has d k = true <-> k ∈ key_set d.
Proof.
  unfold dict_has, key_set, dict_keys. induction d as [|[k' v] d IH].
  - cbn [map dict_lookup]. rewrite list_to_set_nil. split; [discriminate | set_solver].
  - cbn [map dict_lookup fst]. rewrite list_to_set_cons, elem_of_union, elem_of_singleton.
    destruct (String.eqb k' k) eqn:E.
    + apply String.eqb_eq in E. split; [now left | reflexivity].
    + apply String.eqb_neq in E. rewrite IH. split; [now right | intros [?|?]; congruence].
Qed.

Lemma key_set_size {V : Type} (d : list (string * V)) : (size (key_set d) <= length d)%nat.
Proof.
  unfold key_set, dict_keys. induction d as [|[k v] d IH].
  - cbn [map length]. rewrite list_to_set_nil, size_empty. lia.
  - cbn [map length fst]. rewrite list_to_set_cons.
    etransitivity; [apply Nat.eq_le_incl, size_union_alt|].
    rewrite size_singleton.
    pose proof (subseteq_size (list_to_set (map fst d) ∖ ({[k]} : gset string))
                  (list_to_set (map fst d))
                  (subseteq_difference_l _ _ _ (reflexivity _))).
    lia.
Qed.

Lemma dfs_unfold fuel path tmap tid2 st :
  dfs (S fuel) path tmap tid2 st
  = if bool_decide (tid2 ∈ visited st) then Returned tt st
    else if bool_decide (tid2 ∈ visiting st) then
      match list_index tid2 (stack st) with
      | None => Raised ValueError
      | Some i =>
          Returned tt (mkDfs (visiting st) (visited st) (stack st)
                         (sink st ++ [mkIssue path ""
                                        (cycle_message (drop i (stack st) ++ [tid2]))]))
      end
    else
      match dfs_each (dfs fuel path tmap) tmap (prereq_list tmap tid2)
              (mkDfs (visiting st ∪ {[ tid2 ]}) (visited st) (stack st ++ [tid2]) (sink st)) with
      | Raised e => Raised e
      | Returned _ st2 =>
          match stack st2 with
          | [] => Raised IndexError
          | _ :: _ =>
              if bool_decide (tid2 ∈ visiting st2) then
                Returned tt (mkDfs (visiting st2 ∖ {[ tid2 ]}) (visited st2 ∪ {[ tid2 ]})
                               (removelast (stack st2)) (sink st2))
              else Raised KeyError
          end
      end.
Proof.
  simpl. unfold prereq_list.
  destruct (bool_decide (tid2 ∈ visited st)); [reflexivity|].
  destruct (bool_decide (tid2 ∈ visiting st)); [reflexivity|].
  now destruct (dict_get_default (dict_get_default tmap tid2 []) "prereqs" (JList [])).
Qed.

Lemma list_index_in x l : In x l -> exists i, list_index x l = Some i.
Proof.
  induction l as [|y l IH]; [intros []|]. simpl.
  destruct (String.eqb_spec y x) as [->|Hne]; [eauto|].
  intros [->|Hin]; [congruence|]. destruct (IH Hin) as (i & ->). eauto.
Qed.

Lemma dfs_frame_refl path st : dfs_frame path st st.
Proof.
  repeat split; try reflexivity. exists []. now rewrite app_nil_r.
Qed.

Lemma dfs_frame_trans path st1 st2 st3 :
  dfs_frame path st1 st2 -> dfs_frame path st2 st3 -> dfs_frame path st1 st3.
Proof.
  clear date_fromisoformat_ok.
  intros (Hs1 & Hv1 & Hd1 & l1 & Hk1 & Hl1) (Hs2 & Hv2 & Hd2 & l2 & Hk2 & Hl2).
  repeat split; try congruence; [set_solver|].
  exists (l1 ++ l2). split; [rewrite Hk2, Hk1; now rewrite app_assoc | now apply Forall_app].
Qed.

(** The loop over the prerequisites returns when every recursive call made
    from a state with the loop's stack and [visiting] set does. *)
Lemma dfs_each_returns path (visit : string -> dfs_state -> outcome dfs_state unit) tmap l :
  forall st,
  (forall pre st0, dict_has tmap pre = true ->
     stack st0 = stack st -> visiting st0 = visiting st ->
     exists st0', visit pre st0 = Returned tt st0' /\ dfs_frame path st0 st0') ->
  exists st', dfs_each visit tmap l st = Returned tt st' /\ dfs_frame path st st'.
Proof.
  induction l as [|v l IH]; intros st Hvisit; simpl.
  - exists st. split; [reflexivity | apply dfs_frame_refl].
  - destruct v; try apply IH; try exact Hvisit.
    destruct (dict_has tmap s) eqn:Hhas; [|now apply IH].
    destruct (Hvisit s st Hhas eq_refl eq_refl) as (st1 & -> & Hf1).
    destruct (IH st1) as (st' & -> & Hf').
    { intros pre st0 Hpre Hs Hv. apply Hvisit; [exact Hpre | |];
        destruct Hf1 as (? & ? & _); congruence. }
    exists st'. split; [reflexivity | eapply dfs_frame_trans; eauto].
Qed.

(** [dfs] returns whenever the fuel exceeds the number of techs that are not
    on the stack; it restores the stack and [visiting], and only adds to
    [visited] and to the sink. *)
Lemma dfs_returns path tmap fuel :
  forall tid st,
  dict_has tmap tid = true ->
  visiting st = list_to_set (stack st) ->
  visiting st ⊆ key_set tmap ->
  (size (key_set tmap) < fuel + size (visiting st))%nat ->
  exists st', dfs fuel path tmap tid st = Returned tt st' /\ dfs_frame path st st'.
Proof.
  clear date_fromisoformat_ok.
  induction fuel as [|fuel IH]; intros tid st Hkey Hinv Hsub Hfuel.
  - apply subseteq_size in Hsub. simpl in Hfuel. lia.
  - rewrite dfs_unfold.
    destruct (bool_decide (tid ∈ visited st)) eqn:Hd.
    { exists st. split; [reflexivity | apply dfs_frame_refl]. }
    destruct (bool_decide (tid ∈ visiting st)) eqn:Hv.
    { apply bool_decide_eq_true_1 in Hv. rewrite Hinv in Hv.
      apply elem_of_list_to_set, list_elem_of_In, list_index_in in Hv as (i & ->).
      eexists. split; [reflexivity|]. repeat split; try reflexivity.
      simpl. eexists. split; [reflexivity|]. constructor; [|constructor].
      repeat split. eexists. reflexivity. }
    apply bool_decide_eq_false_1 in Hv.
    set (st1 := mkDfs (visiting st ∪ {[ tid ]}) (visited st) (stack st ++ [tid]) (sink st)).
    destruct (dfs_each_returns path (dfs fuel path tmap) tmap (prereq_list tmap tid) st1)
      as (st2 & -> & Hs2 & Hv2 & Hd2 & l & Hk2 & Hl).
    { intros pre st0 Hpre Hs0 Hv0. apply IH; [exact Hpre | | |].
      - rewrite Hv0, Hs0. simpl. rewrite list_to_set_app_L, Hinv. set_solver.
      - rewrite Hv0. simpl. apply dict_has_key_set in Hkey. set_solver.
      - rewrite Hv0. simpl. rewrite size_union by set_solver. rewrite size_singleton. lia. }
    simpl in Hs2, Hv2, Hd2, Hk2. rewrite Hs2.
    destruct (stack st ++ [tid]) eqn:E; [now destruct (stack st)|]. rewrite <- E.
    rewrite bool_decide_eq_true_2 by (rewrite Hv2; set_solver).
    eexists. split; [reflexivity|]. unfold dfs_frame. simpl.
    rewrite removelast_last, Hv2. repeat split; [set_solver | set_solver|].
    exists l. split; assumption.
Qed.

(** The loop over the roots returns, with the fuel [detect_cycles] gives. *)
Lemma dfs_roots_returns path tmap fuel keys :
  forall st,
  (size (key_set tmap) < fuel)%nat ->
  (forall k, In k keys -> dict_has tmap k = true) ->
  visiting st = ∅ ->
  exists st', dfs_roots fuel path tmap keys st = Returned tt st' /\
    visiting st' = ∅ /\ visited st ⊆ visited st' /\
    exists l, sink st' = sink st ++ l /\ Forall (cycle_issue path) l.
Proof.
  clear date_fromisoformat_ok.
  induction keys as [|k keys IH]; intros st Hfuel Hkeys Hv0; simpl.
  - exists st. repeat split; [exact Hv0 | |]; [set_solver|].
    exists []. now rewrite app_nil_r.
  - destruct (bool_decide (k ∈ visited st)).
    + apply IH; auto. intros k' Hk'. apply Hkeys. now right.
    + destruct (dfs_returns path tmap fuel k (mkDfs (visiting st) (visited st) [] (sink st)))
        as (st1 & -> & Hs1 & Hv1 & Hd1 & l1 & Hk1 & Hl1); simpl.
      * apply Hkeys. now left.
      * rewrite Hv0. reflexivity.
      * rewrite Hv0. set_solver.
      * rewrite Hv0, size_empty. lia.
      * simpl in *.
        destruct (IH st1 Hfuel (fun k' Hk' => Hkeys k' (or_intror Hk')))
          as (st' & -> & Hv' & Hd' & l2 & Hk2 & Hl2); [congruence|].
        exists st'. repeat split; [exact Hv' | set_solver|].
        exists (l1 ++ l2). split; [rewrite Hk2, Hk1; now rewrite app_assoc|].
        now apply Forall_app.
Qed.

Lemma detect_cycles_returns path tmap s :
  exists l, detect_cycles path tmap s = Returned tt (s ++ l) /\ Forall (cycle_issue path) l.
Proof.
  unfold detect_cycles.
  destruct (dfs_roots_returns path tmap (S (length tmap)) (dict_keys tmap) (mkDfs ∅ ∅ [] s))
    as (st' & -> & _ & _ & l & Hk & Hl).
  - pose proof (key_set_size tmap). lia.
  - intros k Hk. apply dict_has_key_set. unfold key_set.
    apply elem_of_list_to_set, list_elem_of_In. exact Hk.
  - reflexivity.
  - exists l. simpl in Hk. now rewrite Hk.
Qed.

(** ** Cycle detection: what is reported (C1) *)










(** ** Cycle detection: each tech is entered at most once (C8) *)










(** ** Addresses of the issues (C10) *)



































(** ** The orchestrator: a missing resource file (C2) *)










(** ** Determinism (C9) *)






(** ** Escaping and reading pointers back (X1, X2) *)

Lemma string_app_empty_r (a : string) : a +:+ "" = a.
Proof.
  induction a as [|x a IH]; [reflexivity|].
  now rewrite string_app_cons, IH.
Qed.

Lemma esc_cons (a : ascii) (s : string) :
  esc (String a s)
  = if Ascii.eqb a "~" then String "~" (String "0" (esc s))
    else if Ascii.eqb a "/" then String "~" (String "1" (esc s))
    else String a (esc s).
Proof.
  unfold esc. cbn [replace_char].
  destruct (Ascii.eqb_spec a "~") as [->|Hn].
  - reflexivity.
  - cbn [replace_char]. destruct (Ascii.eqb a "/"); reflexivity.
Qed.

Lemma unesc_esc (s : string) : unesc (esc s) = s.
Proof.
  induction s as [|a s IH]; [reflexivity|].
  rewrite esc_cons.
  destruct (Ascii.eqb_spec a "~") as [->|Hn].
  - cbn [unesc]. change (Ascii.eqb "~" "~") with true. change (Ascii.eqb "0" "0") with true.
    cbv iota. now rewrite IH.
  - destruct (Ascii.eqb_spec a "/") as [->|Hs].
    + cbn [unesc]. change (Ascii.eqb "~" "~") with true.
      change (Ascii.eqb "1" "0") with false. change (Ascii.eqb "1" "1") with true.
      cbv iota. now rewrite IH.
    + cbn [unesc]. apply Ascii.eqb_neq in Hn. rewrite Hn. now rewrite IH.
Qed.

Lemma esc_no_slash (s : string) : contains_char "/" (esc s) = false.
Proof.
  induction s as [|a s IH]; [reflexivity|].
  rewrite esc_cons.
  destruct (Ascii.eqb_spec a "~") as [->|Hn]; [exact IH|].
  destruct (Ascii.eqb_spec a "/") as [->|Hs]; [exact IH|].
  cbn [contains_char]. apply Ascii.eqb_neq in Hs. now rewrite Hs.
Qed.

Lemma pretty_N_go_no_slash (x : N) (s : string) :
  contains_char "/" s = false -> contains_char "/" (pretty_N_go x s) = false.
Proof.
  revert s. induction (N.lt_wf_0 x) as [x _ IH]; intros s Hs.
  destruct (decide (x = 0)%N) as [->|Hx]; [exact Hs|].
  rewrite pretty_N_go_step by lia. apply IH; [apply N.div_lt; lia|].
  cbn [contains_char]. rewrite Hs.
  unfold pretty_N_char. repeat case_match; reflexivity.
Qed.

Lemma pretty_nat_no_slash (n : nat) : contains_char "/" (pretty n) = false.
Proof.
  unfold pretty, pretty_nat, pretty, pretty_N.
  destruct (decide (N.of_nat n = 0%N)); [reflexivity|].
  now apply pretty_N_go_no_slash.
Qed.

Lemma seg_text_no_slash (p : seg) : contains_char "/" (seg_text p) = false.
Proof. destruct p; [apply esc_no_slash | apply pretty_nat_no_slash]. Qed.

Lemma json_pointer_cons (p : seg) (l : list seg) :
  _json_pointer (p :: l) = String "/" (seg_text p +:+ _json_pointer l).
Proof.
  destruct l as [|q l].
  - unfold _json_pointer. cbn [map String.concat]. now rewrite string_app_empty_r.
  - unfold _json_pointer. cbn [map].
    change (String.concat "/" (seg_text p :: seg_text q :: map seg_text l))
      with (seg_text p +:+ "/" +:+ String.concat "/" (seg_text q :: map seg_text l)).
    reflexivity.
Qed.

(** A slash-free text followed by the rest of a pointer can be cut in one
    way only. *)
Lemma cut_at_slash (a b r r' : string) :
  contains_char "/" a = false -> contains_char "/" b = false ->
  (r = "" \/ exists t, r = String "/" t) ->
  (r' = "" \/ exists t, r' = String "/" t) ->
  a +:+ r = b +:+ r' -> a = b /\ r = r'.
Proof.
  revert b. induction a as [|x a IH]; intros b Ha Hb Hr Hr' H.
  - destruct b as [|y b]; [now split|].
    exfalso. rewrite string_app_cons in H. cbn [contains_char] in Hb.
    apply orb_false_iff in Hb as [Hy _]. apply Ascii.eqb_neq in Hy.
    destruct Hr as [->|(t & ->)]; [discriminate H|].
    change ("" +:+ String "/" t) with (String "/" t) in H. congruence.
  - cbn [contains_char] in Ha. apply orb_false_iff in Ha as [Hx Ha].
    destruct b as [|y b].
    + exfalso. rewrite string_app_cons in H. apply Ascii.eqb_neq in Hx.
      destruct Hr' as [->|(t & ->)]; [discriminate H|].
      change ("" +:+ String "/" t) with (String "/" t) in H. congruence.
    + cbn [contains_char] in Hb. apply orb_false_iff in Hb as [_ Hb].
      rewrite !string_app_cons in H. injection H as -> H.
      destruct (IH b Ha Hb Hr Hr' H) as [-> ->]. now split.
Qed.

Lemma json_pointer_shape (l : list seg) :
  _json_pointer l = "" \/ exists t, _json_pointer l = String "/" t.
Proof. destruct l as [|p l]; [now left | right]. rewrite json_pointer_cons. eauto. Qed.

Lemma json_pointer_texts (l l' : list seg) :
  _json_pointer l = _json_pointer l' -> map seg_text l = map seg_text l'.
Proof.
  revert l'. induction l as [|p l IH]; intros [|q l'] H.
  - reflexivity.
  - rewrite json_pointer_cons in H. discriminate H.
  - rewrite json_pointer_cons in H. discriminate H.
  - rewrite !json_pointer_cons in H. injection H as H.
    apply cut_at_slash in H as [Hpq Hrest];
      auto using seg_text_no_slash, json_pointer_shape.
    cbn [map]. rewrite Hpq. f_equal. now apply IH.
Qed.

Lemma esc_inj (s t : string) : esc s = esc t -> s = t.
Proof. intros H. rewrite <- (unesc_esc s), <- (unesc_esc t). now rewrite H. Qed.

(** X1: [esc] can be undone: reading ["~0"] as a tilde and ["~1"] as a
    slash gives the key back, so two different keys never have the same
    escaped text; and the escaped text of a key contains no slash, whatever
    the key. *)
Theorem esc_round_trip :
  (forall s, unesc (esc s) = s) /\
  (forall s t, esc s = esc t -> s = t) /\
  (forall s, contains_char "/" (esc s) = false).
Proof.
  split; [exact unesc_esc|]. split; [exact esc_inj | exact esc_no_slash].
Qed.

(** X2: a pointer determines the path it was built from.  Two paths with
    the same pointer have the same length and the same segment texts; when
    their segments are pairwise of the same kind (key with key, index with
    index) the paths are equal, so in particular two paths of object keys
    with the same pointer are the same path. *)
Theorem json_pointer_injective :
  (forall l l', _json_pointer l = _json_pointer l' -> map seg_text l = map seg_text l') /\
  (forall l l', _json_pointer l = _json_pointer l' -> Forall2 same_kind l l' -> l = l') /\
  (forall ks ks', _json_pointer (map SKey ks) = _json_pointer (map SKey ks') -> ks = ks').
Proof.
  assert (Hkind : forall l l', map seg_text l = map seg_text l' ->
                               Forall2 same_kind l l' -> l = l').
  { intros l l' Ht Hk. induction Hk as [|p q l l' Hpq Hk IH]; [reflexivity|].
    cbn [map] in Ht. injection Ht as Hpq' Ht. f_equal; [|now apply IH].
    destruct p, q; try contradiction; simpl in Hpq'.
    - f_equal. now apply esc_inj.
    - f_equal. now apply (inj pretty). }
  split; [exact json_pointer_texts|]. split.
  - intros l l' H Hk. apply Hkind; [now apply json_pointer_texts | exact Hk].
  - intros ks ks' H. apply json_pointer_texts in H.
    revert ks' H. induction ks as [|k ks IH]; intros [|k' ks'] H; try discriminate H.
    + reflexivity.
    + cbn [map] in H. injection H as Hk H. f_equal; [|now apply IH].
      simpl in Hk. now apply esc_inj.
Qed.

(** ** The sink is never read: the issues of a run concatenate (X3) *)

Lemma sink_free_ret {A : Type} (a : A) : sink_free (ret a).
Proof. intros s. unfold ret. now rewrite app_nil_r. Qed.

Lemma sink_free_raise {A : Type} e : sink_free (@raise A e).
Proof. intros s. reflexivity. Qed.

Lemma sink_free_append i : sink_free (append_issue i).
Proof. intros s. reflexivity. Qed.

Lemma sink_free_bind {A B : Type} (m : M A) (k : A -> M B) :
  sink_free m -> (forall a, sink_free (k a)) -> sink_free (bind m k).
Proof.
  intros Hm Hk s. unfold bind. rewrite (Hm s).
  destruct (m []) as [a l|e]; [|reflexivity].
  rewrite (Hk a (s ++ l)), (Hk a l).
  destruct (k a []) as [b l2|e]; [|reflexivity]. now rewrite app_assoc.
Qed.

Lemma sink_free_for_each {A : Type} (body : A -> M unit) (l : list A) :
  (forall x, sink_free (body x)) -> sink_free (for_each body l).
Proof.
  intros H. induction l as [|x l IH]; simpl.
  - apply sink_free_ret.
  - apply sink_free_bind; [apply H | intros _; exact IH].
Qed.

Lemma sink_free_fold_each {A B : Type} (body : B -> A -> M B) (l : list A) b :
  (forall b x, sink_free (body b x)) -> sink_free (fold_each body b l).
Proof.
  intros H. revert b. induction l as [|x l IH]; intros b; simpl.
  - apply sink_free_ret.
  - apply sink_free_bind; [apply H | intros b'; apply IH].
Qed.

Lemma dfs_each_push_sink (visit : string -> dfs_state -> outcome dfs_state unit) tmap l s0 :
  (forall pre st, visit pre (push_sink s0 st) = push_sink_outcome s0 (visit pre st)) ->
  forall st,
  dfs_each visit tmap l (push_sink s0 st) = push_sink_outcome s0 (dfs_each visit tmap l st).
Proof.
  intros Hv. induction l as [|v l IH]; intros st; simpl; [reflexivity|].
  destruct v; try apply IH.
  destruct (dict_has tmap s); [|apply IH].
  rewrite Hv. destruct (visit s st) as [[] st1|e]; simpl; [apply IH | reflexivity].
Qed.

Lemma dfs_push_sink path tmap fuel s0 :
  forall tid st,
  dfs fuel path tmap tid (push_sink s0 st) = push_sink_outcome s0 (dfs fuel path tmap tid st).
Proof.
  induction fuel as [|fuel IH]; intros tid st; [reflexivity|].
  rewrite !dfs_unfold. cbn [push_sink visited visiting stack sink].
  destruct (bool_decide (tid ∈ visited st)); [reflexivity|].
  destruct (bool_decide (tid ∈ visiting st)).
  { destruct (list_index tid (stack st)); [|reflexivity].
    simpl. unfold push_sink. simpl. now rewrite app_assoc. }
  change (mkDfs (visiting st ∪ {[tid]}) (visited st) (stack st ++ [tid]) (s0 ++ sink st))
    with (push_sink s0 (mkDfs (visiting st ∪ {[tid]}) (visited st) (stack st ++ [tid]) (sink st))).
  rewrite (dfs_each_push_sink _ _ _ _ IH).
  destruct (dfs_each (dfs fuel path tmap) tmap (prereq_list tmap tid) _) as [[] st2|e];
    [|reflexivity].
  cbn [push_sink_outcome push_sink visited visiting stack sink].
  destruct (stack st2); [reflexivity|].
  destruct (bool_decide (tid ∈ visiting st2)); reflexivity.
Qed.

Lemma dfs_roots_push_sink path tmap fuel s0 keys :
  forall st,
  dfs_roots fuel path tmap keys (push_sink s0 st)
  = push_sink_outcome s0 (dfs_roots fuel path tmap keys st).
Proof.
  induction keys as [|k keys IH]; intros st; [reflexivity|].
  cbn [dfs_roots push_sink visited visiting stack sink].
  destruct (bool_decide (k ∈ visited st)); [apply IH|].
  change (mkDfs (visiting st) (visited st) [] (s0 ++ sink st))
    with (push_sink s0 (mkDfs (visiting st) (visited st) [] (sink st))).
  rewrite dfs_push_sink.
  destruct (dfs fuel path tmap k _) as [[] st1|e]; simpl; [apply IH | reflexivity].
Qed.

Lemma sink_free_detect_cycles path tmap : sink_free (detect_cycles path tmap).
Proof.
  intros s. unfold detect_cycles.
  replace (mkDfs ∅ ∅ [] s) with (push_sink s (mkDfs ∅ ∅ [] []))
    by (unfold push_sink; simpl; now rewrite app_nil_r).
  rewrite dfs_roots_push_sink.
  destruct (dfs_roots (S (length tmap)) path tmap (dict_keys tmap) (mkDfs ∅ ∅ [] []))
    as [[] st|e]; reflexivity.
Qed.

Ltac sink_free_step :=
  match goal with
  | |- sink_free (ret _) => apply sink_free_ret
  | |- sink_free (raise _) => apply sink_free_raise
  | |- sink_free (append_issue _) => apply sink_free_append
  | |- sink_free (bind _ _) => apply sink_free_bind; [|intros ?]
  | |- sink_free (for_each _ _) => apply sink_free_for_each; intros ?
  | |- sink_free (fold_each _ _ _) => apply sink_free_fold_each; intros ? ?
  | |- sink_free (detect_cycles _ _) => apply sink_free_detect_cycles
  | |- sink_free (_require_dict _ _ _ _) => unfold _require_dict
  | |- sink_free (_require_list _ _ _ _) => unfold _require_list
  | |- sink_free (_require_str _ _ _ _) => unfold _require_str
  | |- sink_free (_require_bool _ _ _ _) => unfold _require_bool
  | |- sink_free (_require_int _ _ _ _ _) => unfold _require_int
  | |- sink_free (_require_number _ _ _ _ _) => unfold _require_number
  | |- sink_free (py_float _) => unfold py_float
  | |- sink_free (_validate_resource_map _ _ _ _ _) => unfold _validate_resource_map
  | |- sink_free (validate_resource_map_entry _ _ _ _ _) => unfold validate_resource_map_entry
  | |- sink_free (component_type_checks _ _ _ _) => unfold component_type_checks
  | |- sink_free (match ?x with _ => _ end) => destruct x
  end.

Lemma sink_free_validate_resources fs root : sink_free (validate_resources fs root).
Proof. unfold validate_resources, validate_resource_entry. repeat sink_free_step. Qed.

Lemma sink_free_validate_component path components e :
  sink_free (validate_component path components e).
Proof. unfold validate_component. repeat sink_free_step. Qed.

Lemma sink_free_validate_design path components ids e :
  sink_free (validate_design path components ids e).
Proof. unfold validate_design, validate_design_component. repeat sink_free_step. Qed.

Lemma sink_free_validate_installation path ids installations e :
  sink_free (validate_installation path ids installations e).
Proof. unfold validate_installation. repeat sink_free_step. Qed.

Lemma sink_free_validate_blueprints fs root ids : sink_free (validate_blueprints fs root ids).
Proof.
  unfold validate_blueprints, validate_include_entry.
  repeat first [ apply sink_free_validate_component
               | apply sink_free_validate_design
               | apply sink_free_validate_installation
               | sink_free_step ].
Qed.

Lemma sink_free_validate_tech path cids iids maps e :
  sink_free (validate_tech path cids iids maps e).
Proof.
  unfold validate_tech, validate_prereq_entry, validate_effect. repeat sink_free_step.
Qed.

Lemma sink_free_validate_tech_tree fs root cids iids :
  sink_free (validate_tech_tree fs root cids iids).
Proof.
  unfold validate_tech_tree, check_tech_prereqs, check_prereq_exists.
  repeat first [ apply sink_free_validate_tech | sink_free_step ].
Qed.

Lemma sink_free_validate_settings fs root : sink_free (validate_settings fs root).
Proof. unfold validate_settings. repeat sink_free_step. Qed.

(** X3: no loader reads the sink: run after other issues were recorded, a
    loader appends exactly what it appends on an empty sink.  So the issues
    [validate_all] returns are those of the resource loader, then those of
    the blueprint loader, then those of the tech-tree loader, then those of
    the settings loader, each as computed on its own; and the first loader
    that raises makes the run raise. *)
Theorem validate_all_concatenates fs root :
  (forall ids, sink_free (validate_blueprints fs root ids)) /\
  (forall cids iids, sink_free (validate_tech_tree fs root cids iids)) /\
  sink_free (validate_settings fs root) /\
  validate_all fs root
  = match validate_resources fs root [] with
    | Raised e => inl e
    | Returned resources l1 =>
        match validate_blueprints fs root (ids_of resources) [] with
        | Raised e => inl e
        | Returned ci l2 =>
            match validate_tech_tree fs root (ids_of (fst ci)) (ids_of (snd ci)) [] with
            | Raised e => inl e
            | Returned _ l3 =>
                match validate_settings fs root [] with
                | Raised e => inl e
                | Returned _ l4 => inr (l1 ++ l2 ++ l3 ++ l4)
                end
            end
        end
    end.
Proof.
  split; [intros; apply sink_free_validate_blueprints|].
  split; [intros; apply sink_free_validate_tech_tree|].
  split; [apply sink_free_validate_settings|].
  unfold validate_all, run_loaders, bind.
  destruct (validate_resources fs root []) as [resources l1|e]; [|reflexivity].
  rewrite (sink_free_validate_blueprints fs root (ids_of resources) l1).
  destruct (validate_blueprints fs root (ids_of resources) []) as [ci l2|e]; [|reflexivity].
  rewrite (sink_free_validate_tech_tree fs root _ _ (l1 ++ l2)).
  destruct (validate_tech_tree fs root (ids_of (fst ci)) (ids_of (snd ci)) [])
    as [[] l3|e]; [|reflexivity].
  rewrite (sink_free_validate_settings fs root ((l1 ++ l2) ++ l3)).
  destruct (validate_settings fs root []) as [[] l4|e]; [|reflexivity].
  now rewrite <- !app_assoc.
Qed.

(** ** Issues are on the content files (X4) *)

Lemma strip_prefix_app (pre rest : list string) : strip_prefix pre (pre ++ rest) = Some rest.
Proof.
  induction pre as [|x pre IH]; [reflexivity|].
  simpl. now rewrite String.eqb_refl.
Qed.

Lemma relative_to_under root rel : relative_to (under root rel) root = Some (mkPath "" rel).
Proof.
  unfold relative_to, under. simpl. now rewrite String.eqb_refl, strip_prefix_app.
Qed.

Lemma format_under root rel ptr msg :
  rel <> [] ->
  format (mkIssue (under root rel) ptr msg) root
  = (if String.eqb ptr "" then String.concat "/" rel
     else String.concat "/" rel +:+ ":" +:+ ptr) +:+ ": " +:+ msg.
Proof.
  intros Hrel. unfold format. cbn [file pointer message]. rewrite relative_to_under.
  unfold path_str. cbn [anchor components]. destruct rel; [congruence | reflexivity].
Qed.

Lemma content_paths root :
  resources_path root = under root ["data"; "blueprints"; "resources.json"] /\
  blueprints_path root = under root ["data"; "blueprints"; "starting_blueprints.json"] /\
  tech_tree_path root = under root ["data"; "tech"; "tech_tree.json"] /\
  settings_path root = under root ["data"; "settings.json"].
Proof.
  unfold resources_path, blueprints_path, tech_tree_path, settings_path, path_join, under.
  cbn [anchor components]. now rewrite <- !app_assoc.
Qed.

Ltac file_step :=
  match goal with
  | |- all_issues _ (ret _) => apply all_issues_ret
  | |- all_issues _ (raise _) => apply all_issues_raise
  | |- all_issues _ (append_issue _) => apply all_issues_append; reflexivity
  | |- all_issues _ (bind _ _) => apply all_issues_bind; [|intros ?]
  | |- all_issues _ (for_each _ _) => apply all_issues_for_each; intros ?
  | |- all_issues _ (fold_each _ _ _) => apply all_issues_fold_each; intros ? ?
  | |- all_issues _ (_require_dict _ _ _ _) => unfold _require_dict
  | |- all_issues _ (_require_list _ _ _ _) => unfold _require_list
  | |- all_issues _ (_require_str _ _ _ _) => unfold _require_str
  | |- all_issues _ (_require_bool _ _ _ _) => unfold _require_bool
  | |- all_issues _ (_require_int _ _ _ _ _) => unfold _require_int
  | |- all_issues _ (_require_number _ _ _ _ _) => unfold _require_number
  | |- all_issues _ (py_float _) => unfold py_float
  | |- all_issues _ (_validate_resource_map _ _ _ _ _) => unfold _validate_resource_map
  | |- all_issues _ (validate_resource_map_entry _ _ _ _ _) =>
      unfold validate_resource_map_entry
  | |- all_issues _ (component_type_checks _ _ _ _) => unfold component_type_checks
  | |- all_issues _ (match ?x with _ => _ end) => destruct x
  end.

Lemma validate_resources_file fs root :
  all_issues (fun i => file i = resources_path root) (validate_resources fs root).
Proof. unfold validate_resources, validate_resource_entry. repeat file_step. Qed.

Lemma validate_component_file path components e :
  all_issues (fun i => file i = path) (validate_component path components e).
Proof. unfold validate_component. repeat file_step. Qed.

Lemma validate_design_file path components ids e :
  all_issues (fun i => file i = path) (validate_design path components ids e).
Proof. unfold validate_design, validate_design_component. repeat file_step. Qed.

Lemma validate_installation_file path ids installations e :
  all_issues (fun i => file i = path) (validate_installation path ids installations e).
Proof. unfold validate_installation. repeat file_step. Qed.

Lemma validate_blueprints_file fs root ids :
  all_issues (fun i => file i = blueprints_path root) (validate_blueprints fs root ids).
Proof.
  unfold validate_blueprints, validate_include_entry.
  repeat first [ apply validate_component_file
               | apply validate_design_file
               | apply validate_installation_file
               | file_step ].
Qed.

Lemma validate_tech_file path cids iids maps e :
  all_issues (fun i => file i = path) (validate_tech path cids iids maps e).
Proof. unfold validate_tech, validate_prereq_entry, validate_effect. repeat file_step. Qed.

Lemma detect_cycles_file path tmap :
  all_issues (fun i => file i = path) (detect_cycles path tmap).
Proof.
  intros s. destruct (detect_cycles_returns path tmap s) as (l & -> & Hl).
  exists l. split; [reflexivity|]. eapply Forall_impl; [exact Hl|].
  now intros i (Hf & _).
Qed.

Lemma validate_tech_tree_file fs root cids iids :
  all_issues (fun i => file i = tech_tree_path root) (validate_tech_tree fs root cids iids).
Proof.
  unfold validate_tech_tree, check_tech_prereqs, check_prereq_exists.
  repeat first [ apply validate_tech_file | apply detect_cycles_file | file_step ].
Qed.

Lemma validate_settings_file fs root :
  all_issues (fun i => file i = settings_path root) (validate_settings fs root).
Proof. unfold validate_settings. repeat file_step. Qed.

Lemma on_content_file_of root rel i :
  In rel content_files -> file i = under root rel -> on_content_file root i.
Proof.
  intros Hin Hf. exists rel. split; [exact Hin|]. split; [exact Hf|].
  destruct i as [f p m]. simpl in Hf. subst f. apply format_under.
  unfold content_files in Hin. simpl in Hin.
  destruct Hin as [<-|[<-|[<-|[<-|[]]]]]; discriminate.
Qed.

(** X4: every issue [validate_all] returns is recorded for one of the four
    content files under the root it was given, and its formatted line
    starts with the path of that file relative to the root (for instance
    [data/tech/tech_tree.json]), whatever the root is, followed by the
    pointer when there is one and by the message. *)
Theorem issues_are_on_content_files fs root issues :
  validate_all fs root = inr issues -> Forall (on_content_file root) issues.
Proof.
  destruct (content_paths root) as (Hr & Hb & Ht & Hs).
  assert (H : all_issues (on_content_file root) (run_loaders fs root)).
  { unfold run_loaders.
    apply all_issues_bind.
    { eapply all_issues_weaken; [|apply validate_resources_file].
      intros i Hi. eapply on_content_file_of; [|rewrite Hi; exact Hr]. simpl. tauto. }
    intros resources. apply all_issues_bind.
    { eapply all_issues_weaken; [|apply validate_blueprints_file].
      intros i Hi. eapply on_content_file_of; [|rewrite Hi; exact Hb]. simpl. tauto. }
    intros ci. apply all_issues_bind.
    { eapply all_issues_weaken; [|apply validate_tech_tree_file].
      intros i Hi. eapply on_content_file_of; [|rewrite Hi; exact Ht]. simpl. tauto. }
    intros _.
    eapply all_issues_weaken; [|apply validate_settings_file].
    intros i Hi. eapply on_content_file_of; [|rewrite Hi; exact Hs]. simpl. tauto. }
  unfold validate_all. specialize (H []).
  destruct (run_loaders fs root []) as [[] s|e]; [|discriminate].
  intros [= <-]. destruct H as (l & -> & Hl). exact Hl.
Qed.

(** ** The settings file (X5) *)

Lemma at_most_ret {A : Type} (a : A) n : at_most n (ret a).
Proof. intros s. exists a, []. split; [unfold ret; now rewrite app_nil_r | simpl; lia]. Qed.

Lemma at_most_append i n : at_most (S n) (append_issue i).
Proof. intros s. exists tt, [i]. split; [reflexivity | simpl; lia]. Qed.

Lemma at_most_bind {A B : Type} (m : M A) (k : A -> M B) n1 n2 :
  at_most n1 m -> (forall a, at_most n2 (k a)) -> at_most (n1 + n2) (bind m k).
Proof.
  intros Hm Hk s. unfold bind. destruct (Hm s) as (a & l & -> & Hl).
  destruct (Hk a (s ++ l)) as (b & l' & -> & Hl').
  exists b, (l ++ l'). split; [now rewrite app_assoc | rewrite length_app; lia].
Qed.

(** A checker that either passes silently or fails with one issue: the
    issue counts against what follows only on the failing branch. *)
Lemma at_most_check {A B : Type} (m : M (option A)) (k : option A -> M B) n :
  (forall s, checks_cleanly m s) ->
  (forall a, at_most (S n) (k (Some a))) -> at_most n (k None) ->
  at_most (S n) (bind m k).
Proof.
  intros Hm Hsome Hnone s. unfold bind.
  destruct (Hm s) as [(a & ->)|(i & ->)].
  - apply Hsome.
  - destruct (Hnone (s ++ [i])) as (b & l & -> & Hl).
    exists b, (i :: l). split; [now rewrite <- app_assoc | simpl; lia].
Qed.

Lemma validate_settings_at_most fs root : at_most 3 (validate_settings fs root).
Proof.
  unfold validate_settings.
  destruct (read_file fs (settings_path root)) as [|e|data];
    [apply at_most_append | apply at_most_append |].
  apply at_most_check; [intros; apply require_dict_cleanly | | apply at_most_ret].
  intros top. apply (at_most_bind _ _ 1 2).
  { destruct (dict_has top "startingScenario"); [|apply at_most_ret].
    apply at_most_check; [intros; apply require_str_cleanly | |]; intros; apply at_most_ret. }
  intros _.
  assert (Hsim : forall sim,
    at_most 2
      (sim_d <- _require_dict (settings_path root) [SKey "sim"] sim "sim" ;;
       match sim_d with
       | None => ret tt
       | Some sim_d =>
           (if dict_has sim_d "startDate" then
              s <- _require_str (settings_path root) [SKey "sim"; SKey "startDate"]
                     (dict_get sim_d "startDate") "startDate" ;;
              match s with
              | Some s =>
                  if date_fromisoformat_ok s then ret tt
                  else append_issue (mkIssue (settings_path root)
                         (_json_pointer [SKey "sim"; SKey "startDate"])
                         "startDate must be YYYY-MM-DD")
              | None => ret tt
              end
            else ret tt) ;;
           (if dict_has sim_d "secondsPerDay" then
              _require_int (settings_path root) [SKey "sim"; SKey "secondsPerDay"]
                (dict_get sim_d "secondsPerDay") "secondsPerDay" (Some 1) ;;
              ret tt
            else ret tt)
       end)).
  { intros sim.
    apply at_most_check; [intros; apply require_dict_cleanly | | apply at_most_ret].
    intros sim_d. apply (at_most_bind _ _ 1 1).
    - destruct (dict_has sim_d "startDate"); [|apply at_most_ret].
      apply at_most_check; [intros; apply require_str_cleanly | | apply at_most_ret].
      intros d. destruct (date_fromisoformat_ok d); [apply at_most_ret | apply at_most_append].
    - intros _. destruct (dict_has sim_d "secondsPerDay"); [|apply at_most_ret].
      apply at_most_check; [intros; apply require_int_cleanly | |]; intros; apply at_most_ret. }
  destruct (dict_get top "sim"); first [apply at_most_ret | apply Hsim].
Qed.

(** X5: validating the settings file cannot raise, whatever the file
    holds, and it records at most three issues: at most one each for
    [startingScenario], [sim.startDate] and [sim.secondsPerDay], or a single
    one when the file, its root or [sim] is unusable. *)
Theorem validate_settings_never_raises fs root s :
  exists l, validate_settings fs root s = Returned tt (s ++ l) /\ (length l <= 3)%nat.
Proof.
  destruct (validate_settings_at_most fs root s) as ([] & l & Hrun & Hl). now exists l.
Qed.

(** ** The tech maps record first occurrences (X6) *)

Lemma dict_lookup_set {V : Type} (d : list (string * V)) k v k0 :
  dict_lookup (dict_set d k v) k0 = if String.eqb k k0 then Some v else dict_lookup d k0.
Proof.
  induction d as [|[k' v'] d IH]; simpl; [reflexivity|].
  destruct (String.eqb k' k) eqn:E; simpl.
  - apply String.eqb_eq in E as ->. now destruct (String.eqb k k0).
  - rewrite IH. destruct (String.eqb k' k0) eqn:E0; [|reflexivity].
    apply String.eqb_eq in E0 as ->. now rewrite String.eqb_sym, E.
Qed.

Lemma dict_has_in_keys {V : Type} (d : list (string * V)) k :
  dict_has d k = true <-> In k (dict_keys d).
Proof.
  clear date_fromisoformat_ok.
  unfold dict_has. induction d as [|[k' v'] d IH]; simpl; [split; [discriminate | tauto]|].
  destruct (String.eqb k' k) eqn:E.
  - apply String.eqb_eq in E. tauto.
  - apply String.eqb_neq in E. rewrite IH. tauto.
Qed.

Lemma dict_keys_set_new {V : Type} (d : list (string * V)) k v :
  dict_has d k = false -> dict_keys (dict_set d k v) = dict_keys d ++ [k].
Proof.
  unfold dict_has, dict_keys. induction d as [|[k' v'] d IH]; simpl; [reflexivity|].
  destruct (String.eqb k' k); [discriminate|]. intros H. simpl. now rewrite IH.
Qed.

Lemma validate_tech_result path cids iids maps i tobj s maps' s' :
  validate_tech path cids iids maps (i, tobj) s = Returned maps' s' ->
  maps' = record_tech maps i tobj.
Proof.
  unfold validate_tech, record_tech. intros H.
  apply bind_inv in H as (t & s1 & Ht & H).
  destruct tobj as [| | | | | |t0]; simpl in Ht; unfold bind, append_issue, ret in Ht;
    injection Ht as <- <-; try (now injection H).
  apply bind_inv in H as (tid & s2 & Htid & H).
  destruct (dict_get t0 "id") as [| | | |[|a tid']| |]; simpl in Htid;
    unfold bind, append_issue, ret in Htid; injection Htid as <- <-; try (now injection H).
  destruct (dict_has (tech_by_id maps) (String a tid')).
  - apply bind_inv in H as (? & ? & _ & H). now injection H.
  - repeat (apply bind_inv in H as (? & ? & _ & H)). now injection H.
Qed.

Lemma record_tech_cases maps i tobj :
  ((forall tid, ~ has_id tobj tid) /\ record_tech maps i tobj = maps) \/
  exists t tid, tobj = JDict t /\ has_id tobj tid /\
    record_tech maps i tobj
    = if dict_has (tech_by_id maps) tid then maps
      else mkTechMaps (dict_set (tech_by_id maps) tid t) (dict_set (tech_index_by_id maps) tid i).
Proof.
  unfold record_tech, has_id.
  destruct tobj as [| | | | | |t];
    try (left; split; [intros tid (t' & [=] & _) | reflexivity]).
  destruct (dict_get t "id") as [| | | |[|a tid']| |] eqn:E;
    try (left; split; [intros tid (t' & [= <-] & Hid & Hne); congruence | reflexivity]).
  right. exists t, (String a tid'). split; [reflexivity|]. split; [|reflexivity].
  exists t. split; [reflexivity|]. split; [exact E | discriminate].
Qed.

Lemma has_id_unique tobj tid tid' : has_id tobj tid -> has_id tobj tid' -> tid = tid'.
Proof. intros (t & -> & H & _) (t' & [= <-] & H' & _). congruence. Qed.

Lemma tech_maps_ok_step pre maps tobj :
  tech_maps_ok pre maps -> tech_maps_ok (pre ++ [tobj]) (record_tech maps (length pre) tobj).
Proof.
  clear float_repr date_fromisoformat_ok.
  intros (Hnd & Hrec & Hall).
  assert (Hold : forall tid t, dict_lookup (tech_by_id maps) tid = Some t ->
            exists i, dict_lookup (tech_index_by_id maps) tid = Some i /\
              (pre ++ [tobj]) !! i = Some (JDict t) /\ has_id (JDict t) tid /\
              forall i' x, (i' < i)%nat -> (pre ++ [tobj]) !! i' = Some x -> ~ has_id x tid).
  { intros tid t Hl. destruct (Hrec tid t Hl) as (i & Hi & Hp & Hid & Hfirst).
    exists i. split; [exact Hi|]. split; [now apply lookup_app_l_Some|]. split; [exact Hid|].
    intros i' x Hlt Hx. apply lookup_lt_Some in Hp.
    rewrite lookup_app_l in Hx by lia. now apply (Hfirst i'). }
  destruct (record_tech_cases maps (length pre) tobj) as [(Hno & ->)|(t & tid & -> & Hid & ->)].
  - split; [exact Hnd|]. split; [exact Hold|].
    intros i x tid Hx Hidx. apply lookup_snoc_Some in Hx as [(_ & Hx)|(_ & <-)].
    + now apply (Hall i x).
    + now destruct (Hno tid).
  - destruct (dict_has (tech_by_id maps) tid) eqn:Ehas.
    + split; [exact Hnd|]. split; [exact Hold|].
      intros i x tid0 Hx Hidx. apply lookup_snoc_Some in Hx as [(_ & Hx)|(_ & <-)].
      * now apply (Hall i x).
      * now rewrite <- (has_id_unique _ _ _ Hid Hidx).
    + unfold tech_maps_ok. cbn [tech_by_id tech_index_by_id]. split; [|split].
      * rewrite dict_keys_set_new by exact Ehas. apply NoDup_app. split; [exact Hnd|].
        split; [|apply NoDup_singleton].
        intros k Hk Hk'. apply list_elem_of_singleton in Hk' as ->.
        apply list_elem_of_In, dict_has_in_keys in Hk. congruence.
      * intros tid0 t0. rewrite dict_lookup_set.
        destruct (String.eqb tid tid0) eqn:E.
        -- apply String.eqb_eq in E as <-. intros [= <-].
           exists (length pre). split; [rewrite dict_lookup_set; now rewrite String.eqb_refl|].
           split; [apply list_lookup_middle; reflexivity|]. split; [exact Hid|].
           intros i' x Hlt Hx Hidx. rewrite lookup_app_l in Hx by exact Hlt.
           rewrite (Hall i' x tid Hx Hidx) in Ehas. discriminate.
        -- intros Hl. destruct (Hold tid0 t0 Hl) as (i & Hi & Hrest).
           exists i. split; [|exact Hrest]. now rewrite dict_lookup_set, E.
      * intros i x tid0 Hx Hidx. apply lookup_snoc_Some in Hx as [(_ & Hx)|(_ & <-)].
        -- apply dict_has_set_mono. now apply (Hall i x).
        -- rewrite <- (has_id_unique _ _ _ Hid Hidx). apply dict_has_set_same.
Qed.

Lemma tech_loop_ok path cids iids l pre maps s maps' s' :
  fold_each (validate_tech path cids iids) maps (enumerate_from (length pre) l) s
    = Returned maps' s' ->
  tech_maps_ok pre maps -> tech_maps_ok (pre ++ l) maps'.
Proof.
  revert pre maps s. induction l as [|x l IH]; intros pre maps s H Hok; simpl in H.
  - injection H as <- _. now rewrite app_nil_r.
  - apply bind_inv in H as (m1 & s1 & H1 & H).
    apply validate_tech_result in H1 as ->.
    replace (pre ++ x :: l) with ((pre ++ [x]) ++ l) by now rewrite <- app_assoc.
    apply (IH (pre ++ [x]) (record_tech maps (length pre) x) s1).
    + rewrite length_app. simpl. now rewrite Nat.add_1_r.
    + now apply tech_maps_ok_step.
Qed.

Lemma tech_maps_ok_empty : tech_maps_ok [] (mkTechMaps [] []).
Proof.
  clear float_repr date_fromisoformat_ok.
  split; [apply NoDup_nil_2|]. split; [intros tid t [=]|]. intros i x tid [=].
Qed.

(** X6: when the schema pass over the [techs] array returns, its two maps
    hold each id once; the ids recorded are exactly the ids of the entries
    that are objects with a non-empty string [id]; and an id is recorded
    with the object and the array index of the first entry that has it. *)
Theorem tech_maps_record_first_occurrence path cids iids techs s maps s' :
  fold_each (validate_tech path cids iids) (mkTechMaps [] []) (enumerate techs) s
    = Returned maps s' ->
  NoDup (dict_keys (tech_by_id maps)) /\
  (forall tid, dict_has (tech_by_id maps) tid = true
               <-> exists i x, techs !! i = Some x /\ has_id x tid) /\
  (forall tid t, dict_lookup (tech_by_id maps) tid = Some t ->
     exists i, dict_lookup (tech_index_by_id maps) tid = Some i /\
       techs !! i = Some (JDict t) /\ has_id (JDict t) tid /\
       forall i' x, (i' < i)%nat -> techs !! i' = Some x -> ~ has_id x tid).
Proof.
  intros H. pose proof (tech_loop_ok _ _ _ techs [] _ _ _ _ H tech_maps_ok_empty) as Hok.
  simpl in Hok. destruct Hok as (Hnd & Hrec & Hall).
  split; [exact Hnd|]. split; [|exact Hrec].
  intros tid. split.
  - unfold dict_has. destruct (dict_lookup (tech_by_id maps) tid) as [t|] eqn:E; [|discriminate].
    intros _. destruct (Hrec tid t E) as (i & _ & Hi & Hid & _). now exists i, (JDict t).
  - intros (i & x & Hx & Hid). now apply (Hall i x).
Qed.

(** ** The reference pass (X7) *)

Lemma issues_exactly_ret {A : Type} (a : A) : issues_exactly (fun _ => False) (ret a).
Proof.
  clear float_repr date_fromisoformat_ok.
  intros s. exists a, []. split; [unfold ret; now rewrite app_nil_r|]. intros i. simpl. tauto.
Qed.

Lemma issues_exactly_append i0 : issues_exactly (fun i => i = i0) (append_issue i0).
Proof.
  clear float_repr date_fromisoformat_ok.
  intros s. exists tt, [i0]. split; [reflexivity|]. intros i. simpl. split.
  - intros [<-|[]]. reflexivity.
  - intros ->. now left.
Qed.

Lemma issues_exactly_iff {A : Type} (Q Q' : ValidationIssue -> Prop) (m : M A) :
  (forall i, Q i <-> Q' i) -> issues_exactly Q m -> issues_exactly Q' m.
Proof.
  intros HQ H s. destruct (H s) as (a & l & -> & Hl). exists a, l.
  split; [reflexivity|]. intros i. now rewrite Hl.
Qed.

Lemma issues_exactly_for_each {A : Type} (Q : A -> ValidationIssue -> Prop)
    (body : A -> M unit) (l : list A) :
  (forall x, issues_exactly (Q x) (body x)) ->
  issues_exactly (fun i => exists x, In x l /\ Q x i) (for_each body l).
Proof.
  intros Hbody. induction l as [|x l IH]; intros s; simpl.
  - exists tt, []. split; [ unfold ret; now rewrite app_nil_r|].
    intros i. split; [intros [] | intros (x & [] & _)].
  - unfold bind. destruct (Hbody x s) as ([] & l1 & -> & H1).
    destruct (IH (s ++ l1)) as ([] & l2 & -> & H2).
    exists tt, (l1 ++ l2). split; [now rewrite app_assoc|].
    intros i. rewrite in_app_iff, H1, H2. split.
    + intros [H|(y & Hy & H)]; [exists x; split; [now left | exact H]|].
      exists y. split; [now right | exact H].
    + intros (y & [<-|Hy] & H); [now left|]. right. now exists y.
Qed.

Lemma in_enumerate_from_iff {A : Type} (l : list A) n j x :
  In (j, x) (enumerate_from n l) <-> exists k, j = (n + k)%nat /\ l !! k = Some x.
Proof.
  revert n. induction l as [|y l IH]; intros n; simpl.
  - split; [intros [] | intros (k & _ & [=])].
  - rewrite IH. split.
    + intros [[= <- <-]|(k & -> & Hk)].
      * exists 0%nat. split; [lia | reflexivity].
      * exists (S k). split; [lia | exact Hk].
    + intros ([|k] & -> & Hk).
      * left. injection Hk as ->. f_equal. lia.
      * right. exists k. split; [lia | exact Hk].
Qed.

Lemma dict_lookup_in {V : Type} (d : list (string * V)) k v :
  NoDup (dict_keys d) -> In (k, v) d <-> dict_lookup d k = Some v.
Proof.
  induction d as [|[k' v'] d IH]; simpl; intros Hnd; [split; [intros [] | discriminate]|].
  apply NoDup_cons in Hnd as (Hk' & Hnd). destruct (String.eqb k' k) eqn:E.
  - apply String.eqb_eq in E as ->. split.
    + intros [[= ->]|Hin]; [reflexivity|].
      exfalso. apply Hk', list_elem_of_In. unfold dict_keys.
      apply in_map_iff. now exists (k, v).
    + intros [= ->]. now left.
  - apply String.eqb_neq in E. rewrite <- (IH Hnd). split.
    + intros [[= -> ->]|Hin]; [congruence | exact Hin].
    + intros Hin. now right.
Qed.

Lemma check_prereq_exists_exactly path maps tid j pre :
  issues_exactly
    (fun iss => exists p i, pre = JStr p /\ dict_has (tech_by_id maps) p = false /\
       match dict_lookup (tech_index_by_id maps) tid with
       | Some i => SIdx i
       | None => SKey tid
       end = i /\
       iss = mkIssue path (_json_pointer [SKey "techs"; i; SKey "prereqs"; SIdx j])
               ("unknown prereq tech '" +:+ p +:+ "'"))
    (check_prereq_exists path maps tid (j, pre)).
Proof.
  unfold check_prereq_exists.
  destruct pre as [| | | |p| |];
    try (eapply issues_exactly_iff; [|apply issues_exactly_ret];
         intros i; split; [intros [] | intros (p & ? & [=] & _)]).
  destruct (dict_has (tech_by_id maps) p) eqn:E.
  - eapply issues_exactly_iff; [|apply issues_exactly_ret].
    intros i; split; [intros [] | intros (p' & ? & [= <-] & ? & _); congruence].
  - eapply issues_exactly_iff; [|apply issues_exactly_append].
    intros i; split.
    + intros ->. exists p. eexists. split; [reflexivity|]. split; [exact E|].
      split; reflexivity.
    + intros (p' & ? & [= <-] & _ & <- & ->). reflexivity.
Qed.

Lemma reference_pass_exactly path techs maps :
  tech_maps_ok techs maps ->
  issues_exactly (unknown_prereq_issue path techs)
    (for_each (check_tech_prereqs path maps) (tech_by_id maps)).
Proof.
  clear date_fromisoformat_ok.
  intros (Hnd & Hrec & Hall).
  assert (Hno : forall pre, dict_has (tech_by_id maps) pre = false <->
                  forall i' x, techs !! i' = Some x -> ~ has_id x pre).
  { intros pre. split.
    - intros Hf i' x Hx Hid. rewrite (Hall i' x pre Hx Hid) in Hf. discriminate.
    - intros Hnone. unfold dict_has.
      destruct (dict_lookup (tech_by_id maps) pre) as [t|] eqn:E; [|reflexivity].
      destruct (Hrec pre t E) as (i & _ & Hi & Hid & _). now destruct (Hnone i (JDict t)). }
  eapply issues_exactly_iff;
    [|apply (issues_exactly_for_each
               (fun (e : string * list (string * json)) iss =>
                  exists ps j pre i, dict_get (snd e) "prereqs" = JList ps /\
                    ps !! j = Some (JStr pre) /\ dict_has (tech_by_id maps) pre = false /\
                    match dict_lookup (tech_index_by_id maps) (fst e) with
                    | Some i => SIdx i
                    | None => SKey (fst e)
                    end = i /\
                    iss = mkIssue path
                            (_json_pointer [SKey "techs"; i; SKey "prereqs"; SIdx j])
                            ("unknown prereq tech '" +:+ pre +:+ "'")))].
  - intros iss. split.
    + intros ([tid t] & Hin & ps & j & pre & i & Hps & Hj & Hpre & Hi & ->).
      simpl in Hps, Hi. apply (dict_lookup_in _ _ _ Hnd) in Hin.
      destruct (Hrec tid t Hin) as (i0 & Hi0 & Ht & Hid & Hfirst).
      rewrite Hi0 in Hi. subst i.
      exists i0, t, tid, ps, j, pre. rewrite <- Hno. tauto.
    + intros (i & t & tid & ps & j & pre & Ht & Hid & Hfirst & Hps & Hj & Hpre & ->).
      assert (Hhas := Hall i _ tid Ht Hid). unfold dict_has in Hhas.
      destruct (dict_lookup (tech_by_id maps) tid) as [t'|] eqn:E; [|discriminate].
      destruct (Hrec tid t' E) as (i0 & Hi0 & Ht' & Hid' & Hfirst').
      assert (i0 = i) as ->.
      { destruct (Nat.lt_trichotomy i0 i) as [Hlt|[->|Hlt]]; [|reflexivity|].
        - now destruct (Hfirst i0 _ Hlt Ht').
        - now destruct (Hfirst' i _ Hlt Ht). }
      assert (t' = t) as -> by congruence.
      exists (tid, t). split; [now apply (dict_lookup_in _ _ _ Hnd)|].
      exists ps, j, pre. eexists. cbn [fst snd]. rewrite Hi0, Hno. tauto.
  - intros [tid t]. unfold check_tech_prereqs. cbn [fst snd].
    destruct (dict_get t "prereqs") as [| | | | |ps|];
      try (eapply issues_exactly_iff; [|apply issues_exactly_ret];
           intros i; split; [intros [] | intros (? & ? & ? & ? & [=] & _)]).
    eapply issues_exactly_iff;
      [|apply (issues_exactly_for_each
                 (fun (jp : nat * json) iss =>
                    exists p i, snd jp = JStr p /\ dict_has (tech_by_id maps) p = false /\
                      match dict_lookup (tech_index_by_id maps) tid with
                      | Some i => SIdx i
                      | None => SKey tid
                      end = i /\
                      iss = mkIssue path
                              (_json_pointer [SKey "techs"; i; SKey "prereqs"; SIdx (fst jp)])
                              ("unknown prereq tech '" +:+ p +:+ "'")));
       intros [j pre]; apply check_prereq_exists_exactly].
    intros iss. split.
    + intros ([j pre] & Hin & p & i & Hp & Hhas & Hi & ->). cbn [fst snd] in *. subst pre.
      apply in_enumerate_from_iff in Hin as (k & -> & Hk).
      exists ps, k, p, i. tauto.
    + intros (ps' & j & pre & i & [= <-] & Hj & Hhas & Hi & ->).
      exists (j, JStr pre). split; [apply in_enumerate_from_iff; now exists j|].
      exists pre, i. tauto.
Qed.

(** X7: when the schema pass over [techs] returns, the reference pass that
    follows cannot raise, and it reports exactly this: for each entry that
    is the first with its id, each string of its [prereqs] list that is not
    the id of any entry, at [/techs/i/prereqs/j] with [i] the index of the
    entry in the array (the id is never used in the address).  A
    prerequisite that is the empty string is thus always reported. *)
Theorem reference_pass_reports_unknown_prereqs path cids iids techs s maps s' :
  fold_each (validate_tech path cids iids) (mkTechMaps [] []) (enumerate techs) s
    = Returned maps s' ->
  issues_exactly (unknown_prereq_issue path techs)
    (for_each (check_tech_prereqs path maps) (tech_by_id maps)).
Proof.
  intros H. apply reference_pass_exactly.
  exact (tech_loop_ok _ _ _ techs [] _ _ _ _ H tech_maps_ok_empty).
Qed.

(** ** Cycle detection: a cycle is always reported (X8) *)










(** ** Cycle detection: what is reported is a cycle (X9) *)






(** ** The blueprint maps (X10) *)

Lemma validate_component_result path components entry s components' s' :
  validate_component path components entry s = Returned components' s' ->
  components' = keep_component components entry.
Proof.
  unfold validate_component, keep_component. destruct entry as [cid cobj]. intros H.
  destruct cid as [|a cid']; simpl in H.
  { apply bind_inv in H as (? & ? & _ & H). now injection H. }
  apply bind_inv in H as (cdict & s1 & Hc & H).
  destruct cobj as [| | | | | |cdict0]; simpl in Hc; unfold bind, append_issue, ret in Hc;
    injection Hc as <- <-; try (now injection H).
  apply bind_inv in H as (name & s2 & Hn & H).
  repeat (apply bind_inv in H as (? & ? & _ & H)).
  destruct (dict_get cdict0 "name") as [| | | |[|b n]| |]; simpl in Hn;
    unfold bind, append_issue, ret in Hn; injection Hn as <- <-; now injection H.
Qed.

Lemma validate_installation_result path ids installations entry s installations' s' :
  validate_installation path ids installations entry s = Returned installations' s' ->
  installations' = keep_installation installations entry.
Proof.
  unfold validate_installation, keep_installation. destruct entry as [iid iobj]. intros H.
  destruct iid as [|a iid']; simpl in H.
  { apply bind_inv in H as (? & ? & _ & H). now injection H. }
  apply bind_inv in H as (inst & s1 & Hi & H).
  destruct iobj as [| | | | | |inst0]; simpl in Hi; unfold bind, append_issue, ret in Hi;
    injection Hi as <- <-; try (now injection H).
  repeat (apply bind_inv in H as (? & ? & _ & H)). now injection H.
Qed.

Lemma fold_each_result {A B : Type} (body : B -> A -> M B) (step : B -> A -> B) :
  (forall b x s b' s', body b x s = Returned b' s' -> b' = step b x) ->
  forall l b s b' s', fold_each body b l s = Returned b' s' -> b' = fold_left step l b.
Proof.
  intros Hstep. induction l as [|x l IH]; intros b s b' s' H; simpl in H.
  - now injection H.
  - apply bind_inv in H as (b1 & s1 & H1 & H). apply Hstep in H1 as ->.
    simpl. eapply IH, H.
Qed.

(** With unique keys, the map built holds for each key what the step made
    of its entry. *)
Lemma dict_lookup_fold {V W : Type} (keep : string -> V -> option W)
    (step : list (string * W) -> string * V -> list (string * W)) :
  (forall acc k v, step acc (k, v) = match keep k v with
                                     | Some w => dict_set acc k w
                                     | None => acc
                                     end) ->
  forall l acc k, NoDup (dict_keys l) ->
  dict_lookup (fold_left step l acc) k
  = match dict_lookup l k with
    | Some v => match keep k v with
                | Some w => Some w
                | None => dict_lookup acc k
                end
    | None => dict_lookup acc k
    end.
Proof.
  intros Hstep. induction l as [|[k0 v0] l IH]; intros acc k Hnd; [reflexivity|].
  unfold dict_keys in Hnd. cbn [map fst] in Hnd.
  apply NoDup_cons in Hnd as (Hk0 & Hnd). cbn [fold_left dict_lookup].
  rewrite (IH _ _ Hnd), Hstep. destruct (String.eqb k0 k) eqn:E.
  - apply String.eqb_eq in E as ->.
    assert (dict_lookup l k = None) as ->.
    { destruct (dict_lookup l k) eqn:El; [|reflexivity].
      exfalso. apply Hk0, list_elem_of_In, dict_has_in_keys. unfold dict_has. now rewrite El. }
    destruct (keep k v0); [|reflexivity]. now rewrite dict_lookup_set, String.eqb_refl.
  - assert (Hacc : dict_lookup match keep k0 v0 with
                               | Some w => dict_set acc k0 w
                               | None => acc
                               end k = dict_lookup acc k).
    { destruct (keep k0 v0); [|reflexivity]. now rewrite dict_lookup_set, E. }
    now rewrite Hacc.
Qed.

(** X10: which entries the blueprint loader keeps.  When the loop over the
    entries of [components] returns (keys being unique, as in a parsed
    object), the component map holds exactly the entries with a non-empty
    id whose value is an object with a non-empty string [name], whatever
    their other fields.  The installation map holds every entry with a
    non-empty id whose value is an object, named or not. *)
Theorem blueprint_maps_keep path ids comps insts s s' t t' components installations :
  NoDup (dict_keys comps) -> NoDup (dict_keys insts) ->
  fold_each (validate_component path) [] comps s = Returned components s' ->
  fold_each (validate_installation path ids) [] insts t = Returned installations t' ->
  (forall cid cdict, dict_lookup components cid = Some cdict <->
     cid <> "" /\ dict_lookup comps cid = Some (JDict cdict) /\ well_named cdict) /\
  (forall iid inst, dict_lookup installations iid = Some inst <->
     iid <> "" /\ dict_lookup insts iid = Some (JDict inst)).
Proof.
  intros Hc Hi Hcomps Hinsts.
  apply (fold_each_result _ keep_component (validate_component_result path)) in Hcomps as ->.
  apply (fold_each_result _ keep_installation (validate_installation_result path ids))
    in Hinsts as ->.
  split.
  - intros cid cdict.
    rewrite (dict_lookup_fold
               (fun k v => match k, v with
                           | String _ _, JDict d =>
                               match dict_get d "name" with
                               | JStr (String _ _) => Some d
                               | _ => None
                               end
                           | _, _ => None
                           end) keep_component) by
      (exact Hc || (intros acc [|a k] [| | | | | |d]; try reflexivity;
                    simpl; now destruct (dict_get d "name") as [| | | |[|b n]| |])).
    unfold well_named. cbn [dict_lookup].
    destruct (dict_lookup comps cid) as [v|];
      [|split; [discriminate | intros (_ & [=] & _)]].
    destruct cid as [|a cid']; [split; [discriminate | intros ([] & _); reflexivity]|].
    destruct v as [| | | | | |d]; try (split; [discriminate | intros (_ & [=] & _)]).
    destruct (dict_get d "name") as [| | | |[|b n]| |] eqn:En;
      try (split; [discriminate | intros (_ & [= <-] & n0 & Hn & Hne); congruence]).
    split.
    + intros [= <-]. split; [discriminate|]. split; [reflexivity|].
      exists (String b n). split; [exact En | discriminate].
    + intros (_ & [= <-] & _). reflexivity.
  - intros iid inst.
    rewrite (dict_lookup_fold
               (fun k v => match k, v with
                           | String _ _, JDict d => Some d
                           | _, _ => None
                           end) keep_installation) by
      (exact Hi || (intros acc [|a k] [| | | | | |d]; reflexivity)).
    cbn [dict_lookup].
    destruct (dict_lookup insts iid) as [v|];
      [|split; [discriminate | intros (_ & [=])]].
    destruct iid as [|a iid']; [split; [discriminate | intros ([] & _); reflexivity]|].
    destruct v as [| | | | | |d]; try (split; [discriminate | intros (_ & [=])]).
    split.
    + intros [= <-]. split; [discriminate | reflexivity].
    + intros (_ & [= <-]). reflexivity.
Qed.

(** ** What the run can raise (X11) *)

Lemma safe_dict_get c d k : safe c (JDict d) -> safe c (dict_get d k).
Proof.
  clear float_repr date_fromisoformat_ok.
  unfold safe, dict_get. intros H Hc. specialize (H Hc). simpl in H.
  induction d as [|[k' v] d IH]; [reflexivity|]. simpl in *.
  apply orb_false_iff in H as [Hv Hd]. destruct (String.eqb k' k); [exact Hv | now apply IH].
Qed.

Lemma safe_dict_in c d k v : safe c (JDict d) -> In (k, v) d -> safe c v.
Proof.
  clear float_repr date_fromisoformat_ok.
  unfold safe. intros H Hin Hc. specialize (H Hc). simpl in H.
  induction d as [|[k' v'] d IH]; [destruct Hin|]. simpl in H.
  apply orb_false_iff in H as [Hv Hd]. destruct Hin as [[= -> ->]|Hin]; [exact Hv | now apply IH].
Qed.

Lemma in_enumerate_from_in {A : Type} (l : list A) n j x :
  In (j, x) (enumerate_from n l) -> In x l.
Proof.
  revert n. induction l as [|y l IH]; intros n; [intros []|].
  intros [[= _ ->]|Hin]; [now left | right; eapply IH, Hin].
Qed.

Lemma safe_list_in c l j v : safe c (JList l) -> In (j, v) (enumerate l) -> safe c v.
Proof.
  clear float_repr date_fromisoformat_ok.
  unfold safe. intros H Hin Hc. specialize (H Hc). simpl in H.
  apply in_enumerate_from_in in Hin.
  induction l as [|v' l IH]; [destruct Hin|]. simpl in H.
  apply orb_false_iff in H as [Hv Hl]. destruct Hin as [->|Hin]; [exact Hv | now apply IH].
Qed.

Lemma guarded_ret {A : Type} c (a : A) : guarded c (fun _ => True) (ret a).
Proof. intros s. exact I. Qed.

Lemma guarded_append c i : guarded c (fun _ => True) (append_issue i).
Proof. intros s. exact I. Qed.

Lemma guarded_bind {A B : Type} c (P : A -> Prop) (Q : B -> Prop) (m : M A) (k : A -> M B) :
  guarded c P m -> (forall a, P a -> guarded c Q (k a)) -> guarded c Q (bind m k).
Proof.
  intros Hm Hk s. unfold bind. specialize (Hm s). destruct (m s) as [a s1|e]; [|exact Hm].
  apply (Hk a Hm).
Qed.

Lemma guarded_for_each {A : Type} c (body : A -> M unit) (l : list A) :
  (forall x, In x l -> guarded c (fun _ => True) (body x)) ->
  guarded c (fun _ => True) (for_each body l).
Proof.
  induction l as [|x l IH]; intros H; simpl; [apply guarded_ret|].
  eapply guarded_bind; [apply H; now left|]. intros _ _. apply IH.
  intros y Hy. apply H. now right.
Qed.

Lemma guarded_fold_each {A B : Type} c (body : B -> A -> M B) (l : list A) b :
  (forall b x, In x l -> guarded c (fun _ => True) (body b x)) ->
  guarded c (fun _ => True) (fold_each body b l).
Proof.
  revert b. induction l as [|x l IH]; intros b H; simpl; [apply guarded_ret|].
  eapply guarded_bind; [apply H; now left|]. intros b' _. apply IH.
  intros b0 y Hy. apply H. now right.
Qed.


Lemma require_dict_guarded c f p v w : safe c v -> guarded c (safe_dict c) (_require_dict f p v w).
Proof. intros Hv s. destruct v; simpl; try exact I. exact Hv. Qed.

Lemma require_list_guarded c f p v w : safe c v -> guarded c (safe_list c) (_require_list f p v w).
Proof. intros Hv s. destruct v; simpl; try exact I. exact Hv. Qed.

Lemma require_str_guarded c f p v w : guarded c (fun _ => True) (_require_str f p v w).
Proof. intros s. now destruct (require_str_cleanly f p v w s) as [(a & ->)|(i & ->)]. Qed.

Lemma require_int_guarded c f p v w m : guarded c (fun _ => True) (_require_int f p v w m).
Proof. intros s. now destruct (require_int_cleanly f p v w m s) as [(a & ->)|(i & ->)]. Qed.

Lemma require_bool_guarded c f p v w : guarded c (fun _ => True) (_require_bool f p v w).
Proof. intros s. now destruct (require_bool_cleanly f p v w s) as [(a & ->)|(i & ->)]. Qed.

Lemma require_number_guarded c f p v w m :
  safe c v -> guarded c (fun _ => True) (_require_number f p v w m).
Proof.
  intros Hv s. unfold _require_number, py_float, bind.
  destruct v as [| |z| | | |]; simpl; try exact I.
  - unfold safe in Hv. simpl in Hv. unfold raise, ret.
    destruct (float_of_int z) as [e|x] eqn:E.
    + unfold float_of_int in E.
      destruct (binary_normalize prec64 emax64 z 0 false); try discriminate.
      injection E as <-. split; [reflexivity|].
      destruct c; [reflexivity|]. now specialize (Hv eq_refl).
    + destruct m as [m|]; [destruct (float_lt x m)|]; exact I.
  - unfold ret. destruct m as [m|]; [destruct (float_lt f0 m)|]; exact I.
Qed.

Ltac guard_side :=
  solve [ assumption
        | apply safe_dict_get; assumption
        | eapply safe_dict_in; eassumption
        | eapply safe_list_in; eassumption ].

Ltac guarded_step :=
  match goal with
  | |- guarded _ _ (ret _) => apply guarded_ret
  | |- guarded _ _ (append_issue _) => apply guarded_append
  | |- guarded _ _ (_require_dict _ _ _ _) => apply require_dict_guarded; guard_side
  | |- guarded _ _ (_require_list _ _ _ _) => apply require_list_guarded; guard_side
  | |- guarded _ _ (_require_str _ _ _ _) => apply require_str_guarded
  | |- guarded _ _ (_require_bool _ _ _ _) => apply require_bool_guarded
  | |- guarded _ _ (_require_int _ _ _ _ _) => apply require_int_guarded
  | |- guarded _ _ (_require_number _ _ _ _ _) => apply require_number_guarded; guard_side
  | |- guarded _ _ (bind _ _) =>
      eapply guarded_bind;
      [ solve [repeat guarded_step]
      | let a := fresh "a" in let Ha := fresh "Ha" in
        intros a Ha; cbn beta in Ha;
        try (destruct a; cbn [safe_dict safe_list] in Ha) ]
  | |- guarded _ _ (for_each _ _) =>
      apply guarded_for_each;
      let x := fresh "x" in let Hx := fresh "Hx" in intros [? ?] Hx
  | |- guarded _ _ (fold_each _ _ _) =>
      apply guarded_fold_each;
      let Hx := fresh "Hx" in intros ? [? ?] Hx
  | |- guarded _ _ (_validate_resource_map _ _ _ _ _) =>
      unfold _validate_resource_map, validate_resource_map_entry
  | |- guarded _ _ (component_type_checks _ _ _ _) => unfold component_type_checks
  | |- guarded ?c _ (match dict_get ?d ?k with _ => _ end) =>
      let H := fresh "Hget" in
      assert (H : safe c (dict_get d k)) by guard_side;
      revert H; destruct (dict_get d k); intros H
  | |- guarded _ _ (match ?x with _ => _ end) => destruct x
  end.








(** ** The exit status (X12) *)





(** ** Designs: a duplicate id does not stop the checks (X13) *)

Lemma require_dict_returns c f p v w : guarded c (fun _ => True) (_require_dict f p v w).
Proof. intros s. now destruct (require_dict_cleanly f p v w s) as [(a & ->)|(i & ->)]. Qed.

Lemma require_list_returns c f p v w : guarded c (fun _ => True) (_require_list f p v w).
Proof. intros s. now destruct (require_list_cleanly f p v w s) as [(a & ->)|(i & ->)]. Qed.

Lemma design_checks_returns path components i d :
  guarded false (fun _ => True) (design_checks path components i d).
Proof.
  unfold design_checks, validate_design_component.
  repeat first [ apply require_list_returns
               | eapply guarded_bind; [apply require_list_returns | intros [?|] _]
               | guarded_step ].
Qed.

Lemma sink_free_design_checks path components i d :
  sink_free (design_checks path components i d).
Proof. unfold design_checks, validate_design_component. repeat sink_free_step. Qed.

Lemma validate_design_steps path components ids i d did s :
  dict_get d "id" = JStr did -> did <> "" ->
  validate_design path components ids (i, JDict d) s
  = ((if bool_decide (did ∈ ids) then append_issue (duplicate_design_issue path i did)
      else ret tt) ;;
     design_checks path components i d ;;
     ret (ids ∪ {[ did ]})) s.
Proof.
  intros Hid Hne. unfold validate_design, design_checks, _require_dict.
  unfold bind at 1. unfold ret at 1. rewrite Hid. unfold bind at 1.
  rewrite require_str_ok by exact Hne. unfold duplicate_design_issue. cbn [app].
  unfold bind, ret, append_issue.
  destruct (bool_decide (did ∈ ids)); cbn beta iota;
    repeat match goal with
           | |- context [match ?m ?x with Returned _ _ => _ | Raised _ => _ end] =>
               destruct (m x) as [[] ?|?]
           | |- context [match ?m ?x with Returned _ _ => _ | Raised _ => _ end] =>
               destruct (m x) as [? ?|?]
           end; reflexivity.
Qed.

(** X13: a design whose id was already seen is not skipped (unlike a tech
    entry).  A design object with a non-empty string id never raises; it
    gets the issues of its name, role and component checks, which depend
    neither on the ids seen before nor on the sink, preceded by the
    duplicate-id issue exactly when its id was seen before; and its id is
    in the set handed to the next design. *)
Theorem duplicate_design_id_is_still_checked path components i d did :
  dict_get d "id" = JStr did -> did <> "" ->
  exists l,
    design_checks path components i d [] = Returned tt l /\
    forall ids s,
      validate_design path components ids (i, JDict d) s
      = Returned (ids ∪ {[ did ]})
          (s ++ (if bool_decide (did ∈ ids) then [duplicate_design_issue path i did] else [])
             ++ l).
Proof.
  intros Hid Hne.
  pose proof (design_checks_returns path components i d []) as Hret.
  destruct (design_checks path components i d []) as [[] l|e] eqn:E;
    [|destruct Hret as [_ [=]]].
  exists l. split; [reflexivity|]. intros ids s.
  rewrite (validate_design_steps _ _ _ _ _ _ _ Hid Hne).
  unfold bind. destruct (bool_decide (did ∈ ids)).
  - change (append_issue (duplicate_design_issue path i did) s)
      with (Returned (S := list ValidationIssue) tt (s ++ [duplicate_design_issue path i did])).
    cbn beta iota. rewrite (sink_free_design_checks path components i d), E.
    unfold ret. now rewrite <- app_assoc.
  - change (ret tt s) with (Returned (S := list ValidationIssue) tt s).
    cbn beta iota. rewrite (sink_free_design_checks path components i d), E.
    reflexivity.
Qed.

(** ** The resource ids handed to the blueprint loader (X14) *)

Lemma validate_resources_result fs root s r s' :
  validate_resources fs root s = Returned r s' ->
  ids_of r = catalog_keys (read_file fs (resources_path root)).
Proof.
  unfold validate_resources, catalog_keys. intros H.
  destruct (read_file fs (resources_path root)) as [|e|data].
  - apply bind_inv in H as (? & ? & _ & H). injection H as <- _; reflexivity.
  - apply bind_inv in H as (? & ? & _ & H). injection H as <- _; reflexivity.
  - apply bind_inv in H as (top & s1 & Htop & H).
    destruct data as [| | | | | |top0]; simpl in Htop; unfold bind, append_issue, ret in Htop;
      injection Htop as <- <-; try (injection H as <- _; reflexivity).
    apply bind_inv in H as (? & ? & _ & H).
    apply bind_inv in H as (resources & s2 & Hres & H).
    destruct (dict_get top0 "resources") as [| | | | | |res0]; simpl in Hres;
      unfold bind, append_issue, ret in Hres;
      injection Hres as <- <-; try (injection H as <- _; reflexivity).
    apply bind_inv in H as (? & ? & _ & H). injection H as <- _.
    destruct res0; reflexivity.
Qed.

(** X14: the resource ids the blueprint loader checks references against
    are all the keys of the [resources] object of the catalog, whether or
    not the entries passed their own checks; they are empty when the file,
    its root or that object is unusable.  So a reference to a resource
    whose entry is, say, not an object is not reported as unknown. *)
Theorem resource_ids_are_catalog_keys fs root s r s' file parts what k amt t :
  validate_resources fs root s = Returned r s' ->
  k <> "" ->
  ids_of r = catalog_keys (read_file fs (resources_path root)) /\
  (k ∈ catalog_keys (read_file fs (resources_path root)) ->
   validate_resource_map_entry file parts what (ids_of r) (k, amt) t
   = (_require_number file (parts ++ [SKey k]) amt (what +:+ "['" +:+ k +:+ "']")
        (Some float_zero) ;; ret tt) t).
Proof.
  intros H Hk. apply validate_resources_result in H. split; [exact H|].
  rewrite H. intros Hin. unfold validate_resource_map_entry.
  destruct k as [|a k']; [congruence|]. cbn [String.eqb].
  replace (String.eqb (String a k') "") with false by reflexivity.
  rewrite bool_decide_eq_true_2 by exact Hin. reflexivity.
Qed.

End Validator.

(** * Instances on concrete documents *)





(** C3, the claim as stated fails: an engine whose speed is exactly 0.001
    (so not strictly greater than 0.001) gets no issue, neither from the
    type checks nor from the whole check of the component. *)
Lemma engine_speed_at_bound_accepted :
  dict_get engine_at_bound "speed_km_s" = JFloat float_milli /\
  SFleb float_milli float_milli = true /\
  component_type_checks float_repr_literals (blueprints_path example_root)
    [SKey "components"; SKey "ion_drive"] engine_at_bound (Some "engine") []
  = Returned tt [] /\
  validate_component float_repr_literals (blueprints_path example_root) []
    ("ion_drive", JDict engine_at_bound) []
  = Returned [("ion_drive", engine_at_bound)] [].
Proof. repeat split; vm_compute; reflexivity. Qed.

(** C3 amended, on an engine of speed 0: the speed is below the bound and
    the issue is reported at the address of the field. *)
Lemma engine_speed_bound_is_inclusive_witness :
  number_below (dict_get engine_stalled "speed_km_s") float_milli /\
  overflows (dict_get engine_stalled "fuel_use_per_mkm") = false /\
  exists l,
    component_type_checks float_repr_literals (blueprints_path example_root)
      [SKey "components"; SKey "dead_drive"] engine_stalled (Some "engine") []
    = Returned tt ([] ++ l) /\
    In (mkIssue (blueprints_path example_root)
          (_json_pointer ([SKey "components"; SKey "dead_drive"] ++ [SKey "speed_km_s"]))
          ("speed_km_s must be >= " +:+ float_repr_literals float_milli)) l.
Proof.
  assert (Hb : number_below (dict_get engine_stalled "speed_km_s") float_milli).
  { exists float_zero. split; reflexivity. }
  split; [exact Hb|]. split; [reflexivity|].
  apply (proj1 (proj2 (engine_speed_bound_is_inclusive float_repr_literals
                         (blueprints_path example_root)
                         [SKey "components"; SKey "dead_drive"] engine_stalled []))).
  - exact Hb.
  - reflexivity.
Defined.

(** C4, on two entries with the id "lasers": the second gets the
    duplicate-id issue only, though its cost is not an integer and its
    name, prerequisites and effects are missing. *)
Lemma duplicate_tech_id_short_circuits_witness :
  let path := tech_tree_path example_root in
  let maps1 := mkTechMaps [("lasers", tech_lasers)] [("lasers", 0%nat)] in
  let duplicate := mkIssue path "/techs/1/id" "duplicate tech id 'lasers'" in
  validate_tech float_repr_literals path ∅ ∅ maps1 (1%nat, JDict tech_lasers_again) []
  = Returned maps1 [duplicate] /\
  fold_each (validate_tech float_repr_literals path ∅ ∅) (mkTechMaps [] [])
    (enumerate ([JDict tech_lasers] ++ JDict tech_lasers_again :: [])) []
  = fold_each (validate_tech float_repr_literals path ∅ ∅) maps1 (enumerate_from 2 []) [duplicate].
Proof.
  cbv zeta.
  apply (duplicate_tech_id_short_circuits float_repr_literals (tech_tree_path example_root)
           ∅ ∅ [JDict tech_lasers] tech_lasers_again "lasers" [] []
           (mkTechMaps [("lasers", tech_lasers)] [("lasers", 0%nat)]) []).
  - reflexivity.
  - discriminate.
  - exists tech_lasers. split; [now left | reflexivity].
  - reflexivity.
Defined.

(** C5, the claim as stated fails: a weapon whose only key is
    [missile_ammo], a field of the missile group, still gets the issue that
    it must define a group, and its missile fields are not checked. *)
Lemma weapon_with_ammo_only_has_no_group :
  let path := blueprints_path example_root in
  let cparts := [SKey "components"; SKey "launcher"] in
  In ("missile_ammo", IntField) missile_fields /\
  dict_has weapon_with_ammo_only "missile_ammo" = true /\
  component_type_checks float_repr_literals path cparts weapon_with_ammo_only
    (Some "weapon") []
  = Returned tt [weapon_must_define path cparts].
Proof. cbv zeta. split; [simpl; tauto|]. split; vm_compute; reflexivity. Qed.

(** C5 amended, on two weapons: one with no group, one with only a beam
    damage. *)
Lemma weapon_field_groups_witness :
  let path := blueprints_path example_root in
  let cparts := [SKey "components"; SKey "gun"] in
  component_type_checks float_repr_literals path cparts [("name", JStr "Gun")]
    (Some "weapon") []
  = Returned tt [weapon_must_define path cparts] /\
  component_type_checks float_repr_literals path cparts [("damage", JInt 5)]
    (Some "weapon") []
  = Returned tt [missing_field_issue path cparts ("weapon_range_mkm", NumberField)].
Proof.
  cbv zeta. split.
  - apply (proj1 (weapon_field_groups float_repr_literals (blueprints_path example_root)
                    [SKey "components"; SKey "gun"] [("name", JStr "Gun")] [])).
    reflexivity.
  - destruct (weapon_field_groups float_repr_literals (blueprints_path example_root)
                [SKey "components"; SKey "gun"] [("damage", JInt 5)] [])
      as (_ & H & _ & _).
    destruct (H eq_refl) as (Hrun & _). rewrite (Hrun eq_refl). reflexivity.
Defined.






(** X1, on a key with a slash. *)
Lemma esc_round_trip_witness : esc "a/b" = esc "a/b" /\ "a/b" = "a/b".
Proof.
  split; [reflexivity|]. apply (proj1 (proj2 esc_round_trip) "a/b" "a/b"). reflexivity.
Defined.

(** X2, on a path to an array element under a key with a slash. *)
Lemma json_pointer_injective_witness :
  _json_pointer [SKey "a/b"; SIdx 3] = "/a~1b/3" /\
  Forall2 same_kind [SKey "a/b"; SIdx 3] [SKey "a/b"; SIdx 3] /\
  [SKey "a/b"; SIdx 3] = [SKey "a/b"; SIdx 3].
Proof.
  split; [reflexivity|].
  assert (H : Forall2 same_kind [SKey "a/b"; SIdx 3] [SKey "a/b"; SIdx 3]).
  { repeat constructor. }
  split; [exact H|].
  apply (proj1 (proj2 json_pointer_injective) [SKey "a/b"; SIdx 3] [SKey "a/b"; SIdx 3]);
    [reflexivity | exact H].
Defined.

(** X4, on a repository with a blueprint file only: every issue of the run
    is on a content file. *)
Lemma issues_are_on_content_files_witness :
  exists issues,
    validate_all float_repr_literals (fun _ => true) fs_without_resources example_root
    = inr issues /\
    Forall (on_content_file example_root) issues.
Proof.
  destruct (validate_all float_repr_literals (fun _ => true) fs_without_resources example_root)
    as [e|issues] eqn:E; [vm_compute in E; discriminate E|].
  exists issues. split; [reflexivity|].
  exact (issues_are_on_content_files float_repr_literals (fun _ => true)
           fs_without_resources example_root issues E).
Defined.

(** X6, on two entries with the id "lasers": the id is recorded once, with
    index 0. *)
Lemma tech_maps_record_first_occurrence_witness :
  let techs := [JDict tech_lasers; JDict tech_lasers_again] in
  let maps := mkTechMaps [("lasers", tech_lasers)] [("lasers", 0%nat)] in
  fold_each (validate_tech float_repr_literals (tech_tree_path example_root) ∅ ∅)
    (mkTechMaps [] []) (enumerate techs) []
  = Returned maps [mkIssue (tech_tree_path example_root) "/techs/1/id"
                     "duplicate tech id 'lasers'"] /\
  NoDup (dict_keys (tech_by_id maps)).
Proof.
  cbv zeta. split; [reflexivity|].
  apply (tech_maps_record_first_occurrence float_repr_literals (tech_tree_path example_root)
           ∅ ∅ [JDict tech_lasers; JDict tech_lasers_again] []
           (mkTechMaps [("lasers", tech_lasers)] [("lasers", 0%nat)])
           [mkIssue (tech_tree_path example_root) "/techs/1/id" "duplicate tech id 'lasers'"]).
  reflexivity.
Defined.

(** X7, on a tech that requires itself and an undefined tech: the
    reference pass reports the undefined one. *)
Lemma reference_pass_reports_unknown_prereqs_witness :
  let path := tech_tree_path example_root in
  let maps := mkTechMaps [("warp", tech_warp)] [("warp", 0%nat)] in
  fold_each (validate_tech float_repr_literals path ∅ ∅) (mkTechMaps [] [])
    (enumerate [JDict tech_warp]) [] = Returned maps [] /\
  issues_exactly (unknown_prereq_issue path [JDict tech_warp])
    (for_each (check_tech_prereqs path maps) (tech_by_id maps)) /\
  for_each (check_tech_prereqs path maps) (tech_by_id maps) []
  = Returned tt [mkIssue path "/techs/0/prereqs/1" "unknown prereq tech 'gravitics'"].
Proof.
  cbv zeta. split; [reflexivity|]. split; [|reflexivity].
  apply (reference_pass_reports_unknown_prereqs float_repr_literals
           (tech_tree_path example_root) ∅ ∅ [JDict tech_warp] []
           (mkTechMaps [("warp", tech_warp)] [("warp", 0%nat)]) []).
  reflexivity.
Defined.

(** X10, on a named hull, a plate without a name and a mine without a
    name: the hull and the mine are kept, the plate is not. *)
Lemma blueprint_maps_keep_witness :
  let path := blueprints_path example_root in
  exists s' t',
    fold_each (validate_component float_repr_literals path) [] comps_hull_and_plate []
    = Returned [("hull", [("name", JStr "Hull"); ("type", JStr "armor")])] s' /\
    fold_each (validate_installation float_repr_literals path ∅) [] insts_mine []
    = Returned [("mine", [])] t' /\
    (dict_lookup [("hull", [("name", JStr "Hull"); ("type", JStr "armor")])] "plate"
     = Some [("type", JStr "armor")] <->
     "plate" <> "" /\
     dict_lookup comps_hull_and_plate "plate" = Some (JDict [("type", JStr "armor")]) /\
     well_named [("type", JStr "armor")]).
Proof.
  cbv zeta. eexists. eexists.
  assert (Hc : NoDup (dict_keys comps_hull_and_plate)).
  { apply (bool_decide_unpack _). vm_compute. exact I. }
  assert (Hi : NoDup (dict_keys insts_mine)).
  { apply (bool_decide_unpack _). vm_compute. exact I. }
  split; [reflexivity|]. split; [reflexivity|].
  apply (proj1 (blueprint_maps_keep float_repr_literals (blueprints_path example_root) ∅
                  comps_hull_and_plate insts_mine [] _ [] _ _ _ Hc Hi eq_refl eq_refl)).
Defined.



(** X13, on a design that has only an id, seen before or not. *)
Lemma duplicate_design_id_is_still_checked_witness :
  let path := blueprints_path example_root in
  exists l,
    design_checks path [] 0 [("id", JStr "scout")] [] = Returned tt l /\
    forall ids s,
      validate_design path [] ids (0%nat, JDict [("id", JStr "scout")]) s
      = Returned (ids ∪ {[ "scout" ]})
          (s ++ (if bool_decide ("scout" ∈ ids)
                 then [duplicate_design_issue path 0 "scout"] else []) ++ l).
Proof.
  cbv zeta.
  apply (duplicate_design_id_is_still_checked (blueprints_path example_root) [] 0
           [("id", JStr "scout")] "scout"); [reflexivity | discriminate].
Defined.

(** X14, on a catalog whose entry for "Duranium" is the number 5: the
    entry is reported, and "Duranium" is a known resource all the same. *)
Lemma resource_ids_are_catalog_keys_witness :
  exists r s',
    validate_resources float_repr_literals fs_catalog_with_bad_entry example_root []
    = Returned r s' /\
    s' = [mkIssue (resources_path example_root) "/resources/Duranium"
            "resource 'Duranium' must be an object"] /\
    ids_of r = catalog_keys (read_file fs_catalog_with_bad_entry (resources_path example_root)) /\
    "Duranium" ∈ ids_of r.
Proof.
  eexists. eexists. split; [reflexivity|]. split; [reflexivity|].
  split.
  - apply (proj1 (resource_ids_are_catalog_keys float_repr_literals fs_catalog_with_bad_entry
                    example_root [] _ _ example_root [] "" "Duranium" JNull []
                    eq_refl ltac:(discriminate))).
  - apply elem_of_list_to_set. now left.
Defined.
